(** * Rick-and-Morty style maker: the upload-to-result pipeline

    A shallow embedding of [src/services/geminiService.ts] (image optimizer,
    prompt construction, response extraction) and of the handlers of
    [src/App.tsx] (the controller's state machine and its error-message
    classification), with the properties of the specification stated over
    them.

    Strings are byte strings.  Every pattern the code searches for is ASCII,
    so a byte-level substring test agrees with JavaScript's UTF-16 one on
    UTF-8 encoded text. *)

From Stdlib Require Import String Ascii List NArith QArith Bool Lia.
Import ListNotations.

Open Scope string_scope.

(* ================================================================== *)
(** ** JavaScript values used by the code *)

Module Js.

(** A value that is a string or [undefined]: what [s.split(',')[1]] and an
    optional string field evaluate to. *)
Inductive str : Type :=
| Undefined
| Str (s : string).

(** Truthiness of a string: the empty string is falsy. *)
Definition truthy_string (s : string) : bool :=
  match s with
  | EmptyString => false
  | String _ _ => true
  end.

(** [`${v}`]: the text a template literal interpolates. *)
Definition template (v : str) : string :=
  match v with
  | Undefined => "undefined"
  | Str s => s
  end.

(** [s.startsWith(p)] *)
Definition startsWith (s p : string) : bool := String.prefix p s.

(** [s.includes(p)]: [p] occurs at some position of [s]. *)
Fixpoint includes (s p : string) : bool :=
  String.prefix p s ||
  match s with
  | EmptyString => false
  | String _ rest => includes rest p
  end.

(** [s.split(sep)] for a one-character separator. *)
Fixpoint split (s : string) (sep : ascii) : list string :=
  match s with
  | EmptyString => [EmptyString]
  | String c rest =>
      if Ascii.eqb c sep then EmptyString :: split rest sep
      else match split rest sep with
           | piece :: pieces => String c piece :: pieces
           | [] => [String c EmptyString]
           end
  end.

(** [xs[i]]: [undefined] past the end. *)
Definition index (xs : list string) (i : nat) : str :=
  match nth_error xs i with
  | Some s => Str s
  | None => Undefined
  end.

(** [Math.round(a / b)] for non-negative integers [a] and [b > 0].
    [Math.round] rounds to the nearest integer, halves upwards.  The
    quotient is computed in double precision; for [a < 2^52] its rounding
    error is below the distance [1/(2b)] from [a/b] to the nearest
    half-integer it is not equal to, so the result is that of the exact
    quotient.  Here [a] is a pixel dimension, below [2^32], times 1024. *)
Definition round_div (a b : N) : N := ((2 * a + b) / (2 * b))%N.

(** Errors that reach a [catch]. *)
Inductive error : Type :=
| NoImageError
    (* new Error("No image generated by the model. ...") *)
| TypeError (property : string)
    (* reading [property] of [undefined] *)
| RemoteError (message : option string).
    (* whatever [ai.models.generateContent] rejects with *)

(** The outcome of an awaited promise. *)
Inductive promise (A : Type) : Type :=
| Fulfilled (a : A)
| Rejected (e : error).
Arguments Fulfilled {A} a.
Arguments Rejected {A} e.

Definition bind {A B : Type} (p : promise A) (k : A -> promise B)
  : promise B :=
  match p with
  | Fulfilled a => k a
  | Rejected e => Rejected e
  end.

End Js.

Notation "'await' x <- p ;; k" := (Js.bind p (fun x => k))
  (at level 61, x name, p at next level, right associativity).

(** The double-quote character, for the texts that contain it. *)
Definition dq : string := String (ascii_of_nat 34) EmptyString.
Definition newline : string := String (ascii_of_nat 10) EmptyString.

(* ================================================================== *)
(** ** src/types.ts *)

Record ProcessedImage : Type := {
  base64 : Js.str;
  mimeType : string
}.

Inductive AppState : Type := IDLE | PROCESSING | COMPLETE | ERROR.

Record GenerationResult : Type := {
  original : option ProcessedImage;
  generated : option string
}.

(* ================================================================== *)
(** ** src/services/geminiService.ts: optimizeImage *)

Inductive StyleStrength : Type := balanced | strong.

(** What the browser does with [img.src]: it fires [onerror], or [onload]
    with the decoded [img.width] and [img.height]. *)
Inductive ImageEvent : Type :=
| onerror
| onload (width height : N).

(** The canvas at the time [toDataURL] is called: its size and the
    [drawImage(img, dx, dy, dw, dh)] that filled it. *)
Record Canvas : Type := {
  canvas_width : N;
  canvas_height : N;
  drawn_src : string;
  drawn_x : N;
  drawn_y : N;
  drawn_width : N;
  drawn_height : N
}.

(** The runtime the optimizer runs in. *)
Record Browser : Type := {
  window_defined : bool;                 (* typeof window !== 'undefined' *)
  Image_defined : bool;                  (* typeof Image !== 'undefined' *)
  decode : string -> ImageEvent;         (* img.src to the event fired *)
  getContext_2d : N -> N -> bool;        (* canvas.getContext('2d') !== null *)
  toDataURL : Canvas -> string -> Q -> string
}.

(** The value [optimizeImage] resolves with. *)
Record OptimizedImage : Type := {
  data : Js.str;
  out_mimeType : string
}.

Definition MAX_DIMENSION : N := 1024.

(** [{ data: base64, mimeType }]: the input, given back as it came. *)
Definition unchanged (base64 : Js.str) (mimeType : string) : OptimizedImage :=
  {| data := base64; out_mimeType := mimeType |}.

(** "Calculate new dimensions if image is too large": [None] when the image
    is small enough. *)
Definition new_dimensions (width height : N) : option (N * N) :=
  if ((MAX_DIMENSION <? width) || (MAX_DIMENSION <? height))%N then
    if (height <? width)%N then
      Some (MAX_DIMENSION, Js.round_div (height * MAX_DIMENSION) width)
    else
      Some (Js.round_div (width * MAX_DIMENSION) height, MAX_DIMENSION)
  else None.

Definition image_src (base64 : Js.str) (mimeType : string) : string :=
  "data:" ++ mimeType ++ ";base64," ++ Js.template base64.

(** The promise's executor only ever calls [resolve]. *)
Definition optimizeImage (br : Browser) (base64 : Js.str) (mimeType : string)
  : Js.promise OptimizedImage :=
  if negb (window_defined br) || negb (Image_defined br) then
    Js.Fulfilled (unchanged base64 mimeType)
  else
    let src := image_src base64 mimeType in
    match decode br src with
    | onerror => Js.Fulfilled (unchanged base64 mimeType)
    | onload width height =>
        match new_dimensions width height with
        | None => Js.Fulfilled (unchanged base64 mimeType)
        | Some (width', height') =>
            if negb (getContext_2d br width' height') then
              Js.Fulfilled (unchanged base64 mimeType)
            else
              let canvas :=
                {| canvas_width := width'; canvas_height := height';
                   drawn_src := src; drawn_x := 0; drawn_y := 0;
                   drawn_width := width'; drawn_height := height' |} in
              let newDataUrl := toDataURL br canvas "image/jpeg" 0.85%Q in
              Js.Fulfilled
                {| data := Js.index (Js.split newDataUrl ",") 1;
                   out_mimeType := "image/jpeg" |}
        end
    end.

(* ================================================================== *)
(** ** src/services/geminiService.ts: generateRickAndMortyStyle *)

Definition lines (ls : list string) : string := String.concat newline ls.

(** The template before the intensity line. *)
Definition prompt_head : string :=
  lines
    ["";
     "      [STYLE TRANSFER TASK]";
     "      Target: Redraw the source image entirely in the art style of the animated series " ++ dq ++ "Rick and Morty" ++ dq ++ " (Justin Roiland style).";
     "      ";
     "      **CRITICAL VISUAL FEATURES (MUST FOLLOW):**";
     "      1.  **EYES:** Characters MUST have perfectly round white eyes with **uneven, scribbly black pupils** (looking like little asterisks or scribbles). This is the specific " ++ dq ++ "Rick and Morty" ++ dq ++ " signature.";
     "      2.  **OUTLINES:** Use thin, consistent black vector lines. No sketchy lines, just clean ink.";
     "      3.  **COLORING:** Use flat, solid colors. **ABSOLUTELY NO** gradients, soft shading, or realistic lighting. Use the show's pale/greyish skin tone palette unless the subject is dark-skinned.";
     "      4.  **MOUTHS:** Use the show's signature " ++ dq ++ "droopy" ++ dq ++ " lips or simple line mouths.";
     "      ";
     "      **INTENSITY LEVEL: "].

Definition intensity_level (strength : StyleStrength) : string :=
  match strength with
  | strong => "MAXIMUM SCHWIFTINESS (High Stylization)"
  | balanced => "STANDARD (Balanced)"
  end.

Definition instruction (strength : StyleStrength) : string :=
  match strength with
  | strong =>
      lines
        ["**INSTRUCTION - MAXIMUM STYLE:** ";
         "           - **Heavily caricature** the subjects. ";
         "           - Distort realistic proportions to fit the cartoon's " ++ dq ++ "bean-head" ++ dq ++ " and " ++ dq ++ "noodly limb" ++ dq ++ " anatomy. ";
         "           - It is acceptable to sacrifice some facial likeness to achieve the perfect " ++ dq ++ "Adult Swim" ++ dq ++ " cartoon look. ";
         "           - Make the background look like a wobbly alien dimension or a clean vector sci-fi room.";
         "           - The result should look like a screenshot from Season 4."]
  | balanced =>
      lines
        ["**INSTRUCTION - BALANCED:**";
         "           - Preserve the distinct likeness, pose, and expression of the subjects.";
         "           - Apply the line-art and coloring style of the show, but keep the facial proportions recognizable.";
         "           - Simplify clothing details into the cartoon style."]
  end.

(** [const prompt = `...`] *)
Definition prompt (strength : StyleStrength) : string :=
  prompt_head ++ intensity_level strength
  ++ lines ["**"; "      "; "      "]
  ++ instruction strength
  ++ lines [""; ""; "      **Output:** Return ONLY the generated image."; "    "].

(** [config.temperature] *)
Definition temperature (strength : StyleStrength) : Q :=
  match strength with
  | strong => 0.75
  | balanced => 0.65
  end.

(** The argument of [ai.models.generateContent]: an inline-data part, a text
    part and the generation settings. *)
Record Request : Type := {
  model : string;
  inlineData_data : Js.str;
  inlineData_mimeType : string;
  text : string;
  config_temperature : Q
}.

(** The response, as far as the code reads it.  Every field the SDK declares
    optional is an option here; [inline_data] is [inlineData.data]. *)
Record InlineData : Type := { inline_data : Js.str }.

Record Part : Type := {
  part_inlineData : option InlineData;
  part_text : option string
}.

Record Content : Type := { parts : option (list Part) }.

Record Candidate : Type := { content : option Content }.

Record Response : Type := { candidates : option (list Candidate) }.

(** [part.inlineData && part.inlineData.data], as the data when truthy. *)
Definition part_image (part : Part) : option string :=
  match part_inlineData part with
  | Some inlineData =>
      match inline_data inlineData with
      | Js.Str d => if Js.truthy_string d then Some d else None
      | Js.Undefined => None
      end
  | None => None
  end.

(** [for (const part of ...) { if (...) return `data:image/png;base64,...` }] *)
Fixpoint scan_parts (ps : list Part) : option string :=
  match ps with
  | [] => None
  | part :: rest =>
      match part_image part with
      | Some d => Some ("data:image/png;base64," ++ d)
      | None => scan_parts rest
      end
  end.

(** "Extract the image from the response".  The condition reads
    [response.candidates[0].content.parts] once [response.candidates] is
    truthy: an empty array or a first candidate without content makes the
    property access throw. *)
Definition extract_image (response : Response) : Js.promise string :=
  let no_image := Js.Rejected Js.NoImageError in
  match candidates response with
  | None => no_image
  | Some [] => Js.Rejected (Js.TypeError "content")
  | Some (first :: _) =>
      match content first with
      | None => Js.Rejected (Js.TypeError "parts")
      | Some c =>
          match parts c with
          | None => no_image
          | Some ps =>
              match scan_parts ps with
              | Some url => Js.Fulfilled url
              | None => no_image
              end
          end
      end
  end.

(** The request built from the optimized image and the strength. *)
Definition build_request (optimizedImage : OptimizedImage)
  (strength : StyleStrength) : Request :=
  {| model := "gemini-2.5-flash-image";
     inlineData_data := data optimizedImage;
     inlineData_mimeType := out_mimeType optimizedImage;
     text := prompt strength;
     config_temperature := temperature strength |}.

(** The remote capability behind [ai.models.generateContent]. *)
Definition Remote : Type := Request -> Js.promise Response.

(** The [catch] logs and rethrows, so a rejection passes through. *)
Definition generateRickAndMortyStyle (br : Browser) (generateContent : Remote)
  (inputImage : ProcessedImage) (strength : StyleStrength)
  : Js.promise string :=
  await optimizedImage <-
    optimizeImage br (base64 inputImage) (mimeType inputImage) ;;
  await response <- generateContent (build_request optimizedImage strength) ;;
  extract_image response.

(** The request a call issues, when it issues one. *)
Definition issued_request (br : Browser) (inputImage : ProcessedImage)
  (strength : StyleStrength) : Js.promise Request :=
  await optimizedImage <-
    optimizeImage br (base64 inputImage) (mimeType inputImage) ;;
  Js.Fulfilled (build_request optimizedImage strength).

(* ================================================================== *)
(** ** src/App.tsx: the controller *)

(** The component's state: the four [useState] cells and the value of the
    element behind [fileInputRef] ([None] while no input is mounted). *)
Record Controller : Type := {
  appState : AppState;
  result : GenerationResult;
  error : option string;
  styleStrength : StyleStrength;
  fileInputRef : option string
}.

Definition setAppState (s : AppState) (c : Controller) : Controller :=
  {| appState := s; result := result c; error := error c;
     styleStrength := styleStrength c; fileInputRef := fileInputRef c |}.

Definition setResult (r : GenerationResult) (c : Controller) : Controller :=
  {| appState := appState c; result := r; error := error c;
     styleStrength := styleStrength c; fileInputRef := fileInputRef c |}.

Definition setError (e : option string) (c : Controller) : Controller :=
  {| appState := appState c; result := result c; error := e;
     styleStrength := styleStrength c; fileInputRef := fileInputRef c |}.

Definition setStyleStrength (s : StyleStrength) (c : Controller) : Controller :=
  {| appState := appState c; result := result c; error := error c;
     styleStrength := s; fileInputRef := fileInputRef c |}.

Definition clearFileInput (c : Controller) : Controller :=
  {| appState := appState c; result := result c; error := error c;
     styleStrength := styleStrength c;
     fileInputRef := match fileInputRef c with
                     | Some _ => Some ""
                     | None => None
                     end |}.

(** The state of the first render. *)
Definition initial : Controller :=
  {| appState := IDLE;
     result := {| original := None; generated := None |};
     error := None;
     styleStrength := balanced;
     fileInputRef := Some "" |}.

(** A selected file, as far as the handler reads it. *)
Record File : Type := { file_type : string }.

(** The change event: [event.target.files], and whether
    [reader.readAsDataURL(file)] throws. *)
Record ChangeEvent : Type := {
  files : option (list File);
  readAsDataURL_throws : bool
}.

Definition VALIDATION_MESSAGE : string :=
  "Please upload a valid image file (PNG, JPG, etc.)".
Definition READ_ERROR_MESSAGE : string := "Error reading file".
Definition FALLBACK_MESSAGE : string :=
  "Failed to generate image. Please try again.".
Definition CONNECTION_MESSAGE : string :=
  "Connection failed. The image might be too complex or large for the portal gun. Try a different photo.".
Definition FORMAT_MESSAGE : string :=
  "The image format wasn't accepted by the Council of Ricks. Try a standard JPG or PNG.".
Definition NO_IMAGE_MESSAGE : string :=
  "No image generated by the model. It might have returned text instead.".

(** [err.message].  The text of a [TypeError] is the engine's (V8's here). *)
Definition error_message (err : Js.error) : option string :=
  match err with
  | Js.NoImageError => Some NO_IMAGE_MESSAGE
  | Js.TypeError property =>
      Some ("Cannot read properties of undefined (reading '"
            ++ property ++ "')")
  | Js.RemoteError message => message
  end.

(** "Parse cryptic API errors into user-friendly messages": from
    [err.message] to the text handed to [setError]. *)
Definition classify (message : option string) : string :=
  let errorMessage :=
    match message with
    | Some m => if Js.truthy_string m then m else FALLBACK_MESSAGE
    | None => FALLBACK_MESSAGE
    end in
  if Js.includes errorMessage "Rpc failed"
     || Js.includes errorMessage "500"
     || Js.includes errorMessage "xhr error"
  then CONNECTION_MESSAGE
  else if Js.includes errorMessage "400" then FORMAT_MESSAGE
  else errorMessage.

(** What [reader.onloadend] closes over. *)
Record PendingRead : Type := {
  read_file : File;
  read_strength : StyleStrength
}.

(** What the continuation of [await generateRickAndMortyStyle(...)] closes
    over. *)
Record PendingGeneration : Type := {
  inputImage : ProcessedImage;
  strength : StyleStrength
}.

(** [handleFileUpload], up to [reader.readAsDataURL(file)]: the new state and
    the read it started. *)
Definition handleFileUpload (event : ChangeEvent) (c : Controller)
  : Controller * option PendingRead :=
  match files event with
  | None | Some [] => (c, None)
  | Some (file :: _) =>
      if negb (Js.startsWith (file_type file) "image/") then
        (setError (Some VALIDATION_MESSAGE) c, None)
      else
        let c := setError None (setAppState PROCESSING c) in
        if readAsDataURL_throws event then
          (setAppState ERROR (setError (Some READ_ERROR_MESSAGE) c), None)
        else
          (c, Some {| read_file := file;
                      read_strength := styleStrength c |})
  end.

(** [reader.onloadend], up to the [await]: [reader.result] is [null] after
    a failed read, and then [split] throws before any setter runs. *)
Definition onloadend (p : PendingRead) (reader_result : option string)
  (c : Controller) : Controller * option PendingGeneration :=
  match reader_result with
  | None => (c, None)
  | Some base64String =>
      let base64Data := Js.index (Js.split base64String ",") 1 in
      let input :=
        {| base64 := base64Data; mimeType := file_type (read_file p) |} in
      (setResult {| original := Some input; generated := None |} c,
       Some {| inputImage := input; strength := read_strength p |})
  end.

(** The rest of [reader.onloadend], run when the awaited promise settles. *)
Definition settle (g : PendingGeneration) (outcome : Js.promise string)
  (c : Controller) : Controller :=
  match outcome with
  | Js.Fulfilled generatedImageUrl =>
      setAppState COMPLETE
        (setResult {| original := Some (inputImage g);
                      generated := Some generatedImageUrl |} c)
  | Js.Rejected err =>
      setAppState ERROR (setError (Some (classify (error_message err))) c)
  end.

(** The same, with the outcome computed by the generation client. *)
Definition settle_in (br : Browser) (generateContent : Remote)
  (g : PendingGeneration) (c : Controller) : Controller :=
  settle g
    (generateRickAndMortyStyle br generateContent (inputImage g) (strength g))
    c.

Definition handleReset (c : Controller) : Controller :=
  clearFileInput
    (setError None
       (setResult {| original := None; generated := None |}
          (setAppState IDLE c))).

(** [handleDownload]: the link it clicks, if any; the state is not touched. *)
Definition handleDownload (c : Controller) : option (string * string) :=
  match generated (result c) with
  | Some url =>
      if Js.truthy_string url then Some (url, "rick-and-morty-style.png")
      else None
  | None => None
  end.

(** *** What the rendered page offers *)

Definition error_shown (c : Controller) : bool :=
  match error c with
  | Some e => Js.truthy_string e
  | None => false
  end.

Definition is_state (s : AppState) (c : Controller) : bool :=
  match s, appState c with
  | IDLE, IDLE | PROCESSING, PROCESSING
  | COMPLETE, COMPLETE | ERROR, ERROR => true
  | _, _ => false
  end.

Definition result_shown (c : Controller) : bool :=
  is_state COMPLETE c &&
  match generated (result c) with
  | Some url => Js.truthy_string url
  | None => false
  end.

(** The file input and the style selector are rendered in [IDLE] only. *)
Definition upload_offered (c : Controller) : bool := is_state IDLE c.

(** "Try Again" sits in the error box, "New Portal" in the result view. *)
Definition reset_offered (c : Controller) : bool :=
  error_shown c || result_shown c.

(** One step of a session driven through the rendered controls: a user
    action on a control that is rendered, or the completion of a read or of
    a generation. *)
Inductive step : Controller -> Controller -> Prop :=
| step_upload c event :
    upload_offered c = true ->
    step c (fst (handleFileUpload event c))
| step_strength c s :
    upload_offered c = true ->
    step c (setStyleStrength s c)
| step_reset c :
    reset_offered c = true ->
    step c (handleReset c)
| step_loadend c p reader_result :
    step c (fst (onloadend p reader_result c))
| step_settle c g outcome :
    step c (settle g outcome c).

Inductive reachable : Controller -> Prop :=
| reachable_initial : reachable initial
| reachable_step c c' : reachable c -> step c c' -> reachable c'.

(* ================================================================== *)
(** ** Vocabulary of the properties *)

(** [p] occurs somewhere in [s], byte for byte. *)
Definition occurs_in (p s : string) : Prop :=
  exists before after, s = before ++ p ++ after.

(** [s] begins with [p]. *)
Definition begins_with (p s : string) : Prop :=
  exists rest, s = p ++ rest.

(** One of the patterns of a failed connection occurs in [m]. *)
Definition connection_failure (m : string) : Prop :=
  occurs_in "Rpc failed" m \/ occurs_in "500" m \/ occurs_in "xhr error" m.

(** The browser decodes the image to [width] by [height] pixels. *)
Definition decodes (br : Browser) (base64 : Js.str) (mimeType : string)
  (width height : N) : Prop :=
  window_defined br = true /\ Image_defined br = true /\
  decode br (image_src base64 mimeType) = onload width height.

(** [r] is [a / b] rounded to the nearest integer, halves upwards. *)
Definition nearest (r a b : N) : Prop :=
  (2 * r * b <= 2 * a + b /\ 2 * a < 2 * r * b + b)%N.

(** The canvas the optimizer encodes for an image scaled to [w] by [h]. *)
Definition scaled_canvas (base64 : Js.str) (mimeType : string) (w h : N)
  : Canvas :=
  {| canvas_width := w; canvas_height := h;
     drawn_src := image_src base64 mimeType; drawn_x := 0; drawn_y := 0;
     drawn_width := w; drawn_height := h |}.

(** The property of the resize path as the specification words it: an image
    that decodes with a side above 1024 px comes out with its longer side at
    1024, the other side scaled and rounded, encoded as JPEG at 0.85. *)
Definition resized_as_jpeg (br : Browser) (base64 : Js.str)
  (mimeType : string) (width height : N) : Prop :=
  exists w h,
    new_dimensions width height = Some (w, h) /\
    N.max w h = 1024%N /\
    (if (height <? width)%N
     then nearest h (height * 1024) width
     else nearest w (width * 1024) height) /\
    optimizeImage br base64 mimeType =
      Js.Fulfilled
        {| data :=
             Js.index
               (Js.split
                  (toDataURL br (scaled_canvas base64 mimeType w h)
                     "image/jpeg" 0.85%Q) ",") 1;
           out_mimeType := "image/jpeg" |}.

(** The canvas of the scaled size gets its 2D context. *)
Definition context_available (br : Browser) (width height : N) : Prop :=
  forall w h,
    new_dimensions width height = Some (w, h) -> getContext_2d br w h = true.

(** The optimizer cannot do its work: no browser, no decode, or no canvas
    context for the scaled size. *)
Inductive optimizer_fails (br : Browser) (base64 : Js.str)
  (mimeType : string) : Prop :=
| fails_no_window : window_defined br = false ->
    optimizer_fails br base64 mimeType
| fails_no_Image : Image_defined br = false ->
    optimizer_fails br base64 mimeType
| fails_decode : decode br (image_src base64 mimeType) = onerror ->
    optimizer_fails br base64 mimeType
| fails_context width height w h :
    decode br (image_src base64 mimeType) = onload width height ->
    new_dimensions width height = Some (w, h) ->
    getContext_2d br w h = false ->
    optimizer_fails br base64 mimeType.

(** Some part carries inline image data. *)
Definition holds_image (ps : list Part) : Prop :=
  exists part d, In part ps /\ part_image part = Some d.

(** The parts of a response: those of its first candidate, none when there
    is no candidate, no content or no part list. *)
Definition response_parts (response : Response) : list Part :=
  match candidates response with
  | Some ({| content := Some {| parts := Some ps |} |} :: _) => ps
  | _ => []
  end.

(** The file input holds no selection. *)
Definition file_input_cleared (c : Controller) : bool :=
  match fileInputRef c with
  | Some v => negb (Js.truthy_string v)
  | None => true
  end.

(** *** Sample inputs *)

Definition sample_browser (context : bool) (ev : ImageEvent) : Browser :=
  {| window_defined := true; Image_defined := true;
     decode := fun _ => ev;
     getContext_2d := fun _ _ => context;
     toDataURL := fun _ _ _ => "data:image/jpeg;base64,/9j/4AAQ" |}.

Definition photo : File := {| file_type := "image/png" |}.

Definition select_photo : ChangeEvent :=
  {| files := Some [photo]; readAsDataURL_throws := false |}.

Definition photo_read : PendingRead :=
  {| read_file := photo; read_strength := balanced |}.

Definition photo_image : ProcessedImage :=
  {| base64 := Js.Str "iVBORw0KGgo="; mimeType := "image/png" |}.

Definition photo_generation : PendingGeneration :=
  {| inputImage := photo_image; strength := balanced |}.

(** The state after the photo was selected and read: the generation is in
    flight. *)
Definition generating : Controller :=
  fst (onloadend photo_read (Some "data:image/png;base64,iVBORw0KGgo=")
         (fst (handleFileUpload select_photo initial))).

(** A response whose only candidate was cut short and carries no content. *)
Definition blocked_response : Response :=
  {| candidates := Some [ {| content := None |} ] |}.

(* ================================================================== *)
(** ** src/App.tsx: the page and a session on it *)

(** The [src] of the "Original" picture in the result view:
    [`data:${result.original?.mimeType};base64,${result.original?.base64}`]. *)
Definition preview_src (c : Controller) : string :=
  match original (result c) with
  | Some img => "data:" ++ mimeType img ++ ";base64," ++ Js.template (base64 img)
  | None => "data:undefined;base64,undefined"
  end.

(** Something is rendered in [<main>]: the error box, the upload panel, the
    loading portal or the result view. *)
Definition main_rendered (c : Controller) : bool :=
  error_shown c || is_state IDLE c || is_state PROCESSING c || result_shown c.

(** A session: the component's state together with the callbacks that are
    still to run, the [onloadend] of every read started and the continuation
    of every generation awaited. *)
Record Session : Type := {
  ctl : Controller;
  reads : list PendingRead;
  generations : list PendingGeneration
}.

Definition started {A : Type} (o : option A) : list A :=
  match o with
  | Some a => [a]
  | None => []
  end.

Definition initial_session : Session :=
  {| ctl := initial; reads := []; generations := [] |}.

(** One event of a session: the user acts on a control that is rendered, a
    read ends, or a generation settles with the outcome the generation
    client computes in some runtime from some remote behaviour. *)
Inductive session_step : Session -> Session -> Prop :=
| session_select s event :
    upload_offered (ctl s) = true ->
    session_step s
      {| ctl := fst (handleFileUpload event (ctl s));
         reads :=
           (reads s ++ started (snd (handleFileUpload event (ctl s))))%list;
         generations := generations s |}
| session_strength s st :
    upload_offered (ctl s) = true ->
    session_step s
      {| ctl := setStyleStrength st (ctl s);
         reads := reads s; generations := generations s |}
| session_reset s :
    reset_offered (ctl s) = true ->
    session_step s
      {| ctl := handleReset (ctl s);
         reads := reads s; generations := generations s |}
| session_loadend s before p after reader_result :
    reads s = (before ++ p :: after)%list ->
    session_step s
      {| ctl := fst (onloadend p reader_result (ctl s));
         reads := (before ++ after)%list;
         generations :=
           (generations s
            ++ started (snd (onloadend p reader_result (ctl s))))%list |}
| session_settle s before g after br generateContent :
    generations s = (before ++ g :: after)%list ->
    session_step s
      {| ctl := settle_in br generateContent g (ctl s);
         reads := reads s;
         generations := (before ++ after)%list |}.

Inductive session_reachable : Session -> Prop :=
| session_start : session_reachable initial_session
| session_next s s' :
    session_reachable s -> session_step s s' -> session_reachable s'.

(** Nothing is in flight. *)
Definition quiet (s : Session) : Prop :=
  reads s = [] /\ generations s = [].

(** [d] is non-empty inline data of a part of the response's first
    candidate. *)
Definition image_of (response : Response) (d : string) : Prop :=
  d <> "" /\
  exists part,
    In part (response_parts response) /\
    part_inlineData part = Some {| inline_data := Js.Str d |}.

(** What every reachable session satisfies, state by state. *)
Definition session_invariant (s : Session) : Prop :=
  let c := ctl s in
  (forall p, In p (reads s) -> read_strength p = styleStrength c) /\
  (forall g, In g (generations s) ->
     strength g = styleStrength c /\
     original (result c) = Some (inputImage g)) /\
  match appState c with
  | IDLE =>
      quiet s /\ result c = {| original := None; generated := None |}
  | PROCESSING =>
      (length (reads s) + length (generations s) <= 1)%nat /\
      error c = None /\ generated (result c) = None
  | COMPLETE =>
      quiet s /\ error c = None /\
      exists img d,
        d <> "" /\
        result c = {| original := Some img;
                      generated := Some ("data:image/png;base64," ++ d) |}
  | ERROR =>
      quiet s /\ generated (result c) = None /\
      exists m, m <> "" /\ error c = Some m
  end.

(** The session after the photo was selected, and after it was read. *)
Definition reading_session : Session :=
  {| ctl := fst (handleFileUpload select_photo initial);
     reads := [photo_read]; generations := [] |}.

Definition generating_session : Session :=
  {| ctl := generating; reads := []; generations := [photo_generation] |}.

(** A remote that answers with one text part and one PNG part. *)
Definition image_response : Response :=
  {| candidates :=
       Some [ {| content :=
                   Some {| parts :=
                             Some [ {| part_inlineData := None;
                                       part_text := Some "Here you go" |};
                                    {| part_inlineData :=
                                         Some {| inline_data :=
                                                   Js.Str "iVBORw0KGgoAAA" |};
                                       part_text := None |} ] |} |} ] |}.

Definition complete_session : Session :=
  {| ctl := settle_in (sample_browser true (onload 640 480))
              (fun _ => Js.Fulfilled image_response)
              photo_generation generating;
     reads := []; generations := [] |}.

(** A callback of the pipeline runs: a read ends, or a generation settles
    with the outcome the generation client computes. *)
Inductive callback_step : Session -> Session -> Prop :=
| callback_loadend s before p after reader_result :
    reads s = (before ++ p :: after)%list ->
    callback_step s
      {| ctl := fst (onloadend p reader_result (ctl s));
         reads := (before ++ after)%list;
         generations :=
           (generations s
            ++ started (snd (onloadend p reader_result (ctl s))))%list |}
| callback_settle s before g after br generateContent :
    generations s = (before ++ g :: after)%list ->
    callback_step s
      {| ctl := settle_in br generateContent g (ctl s);
         reads := reads s;
         generations := (before ++ after)%list |}.



(** The remote service as one client meets it: what it answers to the call
    numbered [n] of those made to it. *)
Definition Service : Type := nat -> Request -> Js.promise Response.

(** [await ai.models.generateContent(req)], given the calls made so far: the
    answer, and the calls made once it is there. *)
Definition generateContent_call (service : Service) (calls : list Request)
  (req : Request) : Js.promise Response * list Request :=
  (service (length calls) req, (calls ++ [req])%list).

(** [generateRickAndMortyStyle] with its outbound calls recorded: the one
    [generateContent] call sits between the optimizer and the extraction,
    and the [catch] rethrows without calling again. *)
Definition generateRickAndMortyStyle_calls (br : Browser) (service : Service)
  (inputImage : ProcessedImage) (strength : StyleStrength)
  (calls : list Request) : Js.promise string * list Request :=
  match optimizeImage br (base64 inputImage) (mimeType inputImage) with
  | Js.Rejected e => (Js.Rejected e, calls)
  | Js.Fulfilled optimizedImage =>
      let (answer, calls') :=
        generateContent_call service calls
          (build_request optimizedImage strength) in
      (await response <- answer ;; extract_image response, calls')
  end.

(** A service that fails the first call made to it and would answer any
    later one with an image. *)
Definition failing_once : Service :=
  fun n _ =>
    match n with
    | O => Js.Rejected (Js.RemoteError (Some "Rpc failed due to xhr error"))
    | S _ => Js.Fulfilled image_response
    end.

(** The response can be read as far as the parts: it has no candidate list,
    or its first candidate has content. *)
Definition readable (response : Response) : Prop :=
  match candidates response with
  | None => True
  | Some [] => False
  | Some (first :: _) => content first <> None
  end.

(** No comma occurs in [s]. *)
Definition no_comma (s : string) : Prop := ~ occurs_in "," s.

(* ================================================================== *)
(** ** String tests *)

Section StringTests.

Lemma prefix_begins_with (p s : string) :
  String.prefix p s = true <-> begins_with p s.
Proof.
  unfold begins_with. revert s.
  induction p as [|a p IH]; intros [|b s]; simpl.
  - split; [exists ""; reflexivity | reflexivity].
  - split; [exists (String b s); reflexivity | reflexivity].
  - split; [discriminate | intros [rest H]; discriminate H].
  - destruct (ascii_dec a b) as [->|Hab].
    + rewrite IH. split; intros [rest H]; exists rest.
      * now rewrite H.
      * now injection H.
    + split; [discriminate | intros [rest H]].
      injection H as H1 _. now elim Hab.
Qed.

Lemma startsWith_begins_with (s p : string) :
  Js.startsWith s p = true <-> begins_with p s.
Proof. apply prefix_begins_with. Qed.

Lemma includes_occurs_in (s p : string) :
  Js.includes s p = true <-> occurs_in p s.
Proof.
  unfold occurs_in.
  induction s as [|c s IH]; cbn [Js.includes]; rewrite orb_true_iff.
  - rewrite prefix_begins_with. split.
    + intros [[rest H]|H]; [|discriminate].
      exists "", rest. exact H.
    + intros (before & after & H). left.
      destruct before; [|discriminate].
      exists after. exact H.
  - rewrite prefix_begins_with, IH. split.
    + intros [[rest H]|(before & after & H)].
      * exists "", rest. exact H.
      * exists (String c before), after. simpl. now rewrite H.
    + intros (before & after & H).
      destruct before as [|b before]; simpl in H.
      * left. exists after. exact H.
      * right. injection H as _ H. now exists before, after.
Qed.

Lemma includes_false (s p : string) :
  Js.includes s p = false <-> ~ occurs_in p s.
Proof.
  rewrite <- includes_occurs_in.
  destruct (Js.includes s p); intuition congruence.
Qed.

Lemma truthy_string_nonempty (s : string) :
  Js.truthy_string s = true <-> s <> "".
Proof. destruct s; simpl; split; congruence. Qed.

Example split_data_url :
  Js.index (Js.split "data:image/png;base64,iVBORw0KGgo=" ",") 1
  = Js.Str "iVBORw0KGgo=".
Proof. reflexivity. Qed.

Example split_without_separator :
  Js.index (Js.split "iVBORw0KGgo=" ",") 1 = Js.Undefined.
Proof. reflexivity. Qed.

Example split_empty_canvas :
  Js.index (Js.split "data:," ",") 1 = Js.Str "".
Proof. reflexivity. Qed.

Example includes_is_case_sensitive :
  Js.includes "XHR Error" "xhr error" = false /\
  Js.includes "a xhr error b" "xhr error" = true.
Proof. split; reflexivity. Qed.

End StringTests.

(* ================================================================== *)
(** ** The controller's handlers *)

Section Classification.

Lemma connection_failure_includes (m : string) :
  Js.includes m "Rpc failed" || Js.includes m "500"
  || Js.includes m "xhr error" = true <-> connection_failure m.
Proof.
  unfold connection_failure.
  rewrite !orb_true_iff, !includes_occurs_in. tauto.
Qed.

Lemma classify_described (m : string) :
  m <> "" ->
  classify (Some m) =
    if Js.includes m "Rpc failed" || Js.includes m "500"
       || Js.includes m "xhr error"
    then CONNECTION_MESSAGE
    else if Js.includes m "400" then FORMAT_MESSAGE else m.
Proof.
  intros H. apply truthy_string_nonempty in H.
  unfold classify. now rewrite H.
Qed.

End Classification.

(** C7. The message shown for a failure is a function of the failure's
    description, by case-sensitive substring tests in priority order: a
    description in which "Rpc failed", "500" or "xhr error" occurs maps to
    the connection-failed message; otherwise one in which "400" occurs maps
    to the format-rejected message; otherwise the description maps to
    itself.  Where there is no description (it is absent or empty), the
    generic fallback message is shown. *)
Theorem classification_in_priority_order :
  (forall m : string, m <> "" ->
     (connection_failure m -> classify (Some m) = CONNECTION_MESSAGE) /\
     (~ connection_failure m -> occurs_in "400" m ->
      classify (Some m) = FORMAT_MESSAGE) /\
     (~ connection_failure m -> ~ occurs_in "400" m ->
      classify (Some m) = m)) /\
  classify None = FALLBACK_MESSAGE /\
  classify (Some "") = FALLBACK_MESSAGE.
Proof.
  split; [|split; reflexivity].
  intros m Hm. rewrite (classify_described m Hm).
  destruct (Js.includes m "Rpc failed" || Js.includes m "500"
            || Js.includes m "xhr error") eqn:Hconn.
  - apply connection_failure_includes in Hconn.
    split; [|split]; intros; solve [reflexivity | contradiction].
  - assert (Hno : ~ connection_failure m).
    { rewrite <- connection_failure_includes. congruence. }
    destruct (Js.includes m "400") eqn:H400.
    + apply includes_occurs_in in H400.
      split; [|split]; intros; solve [reflexivity | contradiction].
    + apply includes_false in H400.
      split; [|split]; intros; solve [reflexivity | contradiction].
Qed.

Lemma classification_in_priority_order_witness :
  classify (Some "got status: 500 Internal Server Error") = CONNECTION_MESSAGE
  /\ classify (Some "HTTP 400 Bad Request") = FORMAT_MESSAGE
  /\ classify (Some "quota exceeded") = "quota exceeded"
  /\ classify (Some "RPC FAILED") = "RPC FAILED".
Proof.
  pose proof classification_in_priority_order as [H _].
  split; [|split; [|split]].
  - apply (H "got status: 500 Internal Server Error"); [discriminate|].
    apply connection_failure_includes. reflexivity.
  - apply (H "HTTP 400 Bad Request"); [discriminate| |].
    + rewrite <- connection_failure_includes. discriminate.
    + apply includes_occurs_in. reflexivity.
  - apply (H "quota exceeded"); [discriminate| |].
    + rewrite <- connection_failure_includes. discriminate.
    + apply includes_false. reflexivity.
  - apply (H "RPC FAILED"); [discriminate| |].
    + rewrite <- connection_failure_includes. discriminate.
    + apply includes_false. reflexivity.
Defined.

(** C10. A change event that carries no file leaves everything as it was:
    the state, the result record, the error message and the rest of the
    controller are unchanged, and no read is started. *)
Theorem empty_selection_is_noop (event : ChangeEvent) (c : Controller) :
  files event = None \/ files event = Some [] ->
  handleFileUpload event c = (c, None).
Proof.
  unfold handleFileUpload. intros [-> | ->]; reflexivity.
Qed.

Lemma empty_selection_is_noop_witness :
  handleFileUpload {| files := Some []; readAsDataURL_throws := false |}
    generating = (generating, None).
Proof.
  apply empty_selection_is_noop. right. reflexivity.
Defined.

(** C8. Selecting a file whose MIME type does not begin with "image/" keeps
    the application state (so it stays [IDLE] when it was [IDLE]), sets the
    validation error message, starts no read and changes nothing else:
    the result record, the style strength and the file input are as
    before. *)
Theorem non_image_rejected (event : ChangeEvent) (c : Controller)
  (file : File) (others : list File) :
  files event = Some (file :: others) ->
  ~ begins_with "image/" (file_type file) ->
  let c' := fst (handleFileUpload event c) in
  appState c' = appState c /\
  (appState c = IDLE -> appState c' = IDLE) /\
  error c' = Some VALIDATION_MESSAGE /\
  result c' = result c /\
  styleStrength c' = styleStrength c /\
  fileInputRef c' = fileInputRef c /\
  snd (handleFileUpload event c) = None.
Proof.
  intros Hfiles Htype.
  assert (Hstart : Js.startsWith (file_type file) "image/" = false).
  { destruct (Js.startsWith (file_type file) "image/") eqn:E; [|reflexivity].
    apply startsWith_begins_with in E. contradiction. }
  unfold handleFileUpload. rewrite Hfiles, Hstart. simpl.
  repeat split. intros H. exact H.
Qed.

Lemma non_image_rejected_witness :
  let event := {| files := Some [ {| file_type := "application/pdf" |} ];
                  readAsDataURL_throws := false |} in
  appState (fst (handleFileUpload event initial)) = IDLE /\
  error (fst (handleFileUpload event initial)) = Some VALIDATION_MESSAGE.
Proof.
  intros event.
  assert (Htype : ~ begins_with "image/" "application/pdf").
  { rewrite <- startsWith_begins_with. discriminate. }
  destruct (non_image_rejected event initial
              {| file_type := "application/pdf" |} [] eq_refl Htype)
    as (_ & Hidle & Herr & _).
  split; [apply Hidle; reflexivity | exact Herr].
Defined.

(** C9. Reset from any state, whatever it holds, gives the clean [IDLE]
    state: no original, no generated image, no error message and no
    selection left in the file input; a second reset changes nothing. *)
Theorem reset_clean_and_idempotent (c : Controller) :
  appState (handleReset c) = IDLE /\
  original (result (handleReset c)) = None /\
  generated (result (handleReset c)) = None /\
  error (handleReset c) = None /\
  file_input_cleared (handleReset c) = true /\
  handleReset (handleReset c) = handleReset c.
Proof.
  destruct c as [s r e st [v|]]; repeat split.
Qed.

(** In a session driven through the page, an error message is never set
    while the state is [PROCESSING]. *)
Lemma processing_has_no_error (c : Controller) :
  reachable c -> appState c = PROCESSING -> error c = None.
Proof.
  induction 1 as [|c c' Hc IH Hstep]; [discriminate|].
  destruct Hstep as [c event Hup | c s Hup | c Hreset | c p rr | c g o].
  - unfold upload_offered, is_state in Hup.
    destruct (appState c) eqn:Hs; try discriminate.
    unfold handleFileUpload.
    destruct (files event) as [[|file fs]|]; simpl;
      try (rewrite Hs; discriminate).
    destruct (negb _); simpl; [rewrite Hs; discriminate|].
    destruct (readAsDataURL_throws event); simpl;
      [discriminate | reflexivity].
  - unfold upload_offered, is_state in Hup. simpl.
    destruct (appState c); discriminate.
  - discriminate.
  - destruct rr; simpl; exact IH.
  - destruct o; discriminate.
Qed.

(** So the page offers no reset while a generation is awaited: the reset
    controls sit in the error box and in the result view. *)
Lemma reset_not_offered_while_processing (c : Controller) :
  reachable c -> appState c = PROCESSING -> reset_offered c = false.
Proof.
  intros Hc Hs.
  unfold reset_offered, error_shown, result_shown, is_state.
  now rewrite (processing_has_no_error c Hc Hs), Hs.
Qed.

(** The continuation that runs when the generation settles reads no state:
    wherever it runs, a success makes the state [COMPLETE] and stores the
    generated image, a failure makes it [ERROR] with the classified
    message. *)
Lemma settle_reads_no_state (g : PendingGeneration) (c : Controller) :
  (forall url,
     appState (settle g (Js.Fulfilled url) c) = COMPLETE /\
     generated (result (settle g (Js.Fulfilled url) c)) = Some url) /\
  (forall err,
     appState (settle g (Js.Rejected err) c) = ERROR /\
     error (settle g (Js.Rejected err) c)
     = Some (classify (error_message err))).
Proof. split; intros; split; reflexivity. Qed.

(* ================================================================== *)
(** ** The image optimizer *)

Section Dimensions.

Open Scope N_scope.

Lemma round_div_nearest (a b : N) :
  0 < b -> nearest (Js.round_div a b) a b.
Proof.
  intros Hb. unfold nearest, Js.round_div.
  assert (H2b : 2 * b <> 0) by lia.
  pose proof (N.div_mod (2 * a + b) (2 * b) H2b) as Hdm.
  pose proof (N.mod_lt (2 * a + b) (2 * b) H2b) as Hlt.
  set (q := (2 * a + b) / (2 * b)) in *.
  set (r := (2 * a + b) mod (2 * b)) in *.
  nia.
Qed.

(** The side that is not longer scales to at most the threshold. *)
Lemma round_div_shorter (short long : N) :
  0 < long -> short <= long ->
  Js.round_div (short * MAX_DIMENSION) long <= MAX_DIMENSION.
Proof.
  intros Hlong Hle. unfold Js.round_div, MAX_DIMENSION.
  apply N.lt_succ_r. apply N.Div0.div_lt_upper_bound; lia.
Qed.

Lemma new_dimensions_small (width height : N) :
  width <= 1024 -> height <= 1024 -> new_dimensions width height = None.
Proof.
  intros Hw Hh. unfold new_dimensions, MAX_DIMENSION.
  apply N.ltb_ge in Hw, Hh. now rewrite Hw, Hh.
Qed.

Lemma new_dimensions_large (width height : N) :
  1024 < width \/ 1024 < height ->
  exists w h,
    new_dimensions width height = Some (w, h) /\
    N.max w h = 1024 /\
    (if height <? width
     then nearest h (height * 1024) width
     else nearest w (width * 1024) height).
Proof.
  intros Hbig. unfold new_dimensions, MAX_DIMENSION.
  assert (Hcond : (1024 <? width) || (1024 <? height) = true).
  { apply orb_true_iff. rewrite !N.ltb_lt. exact Hbig. }
  rewrite Hcond.
  destruct (height <? width) eqn:Hcmp.
  - apply N.ltb_lt in Hcmp.
    exists 1024, (Js.round_div (height * 1024) width).
    split; [reflexivity | split].
    + apply N.max_l. apply (round_div_shorter height width); lia.
    + apply round_div_nearest. lia.
  - apply N.ltb_ge in Hcmp.
    exists (Js.round_div (width * 1024) height), 1024.
    split; [reflexivity | split].
    + apply N.max_r. apply (round_div_shorter width height); lia.
    + apply round_div_nearest. lia.
Qed.

Example round_half_up :
  Js.round_div 1 2 = 1 /\ Js.round_div 1 3 = 0 /\ Js.round_div 5 2 = 3.
Proof. repeat split. Qed.

Example new_dimensions_landscape :
  new_dimensions 2000 1000 = Some (1024, 512).
Proof. reflexivity. Qed.

Example new_dimensions_portrait :
  new_dimensions 1500 3000 = Some (512, 1024).
Proof. reflexivity. Qed.

Example new_dimensions_square :
  new_dimensions 1025 1025 = Some (1024, 1024).
Proof. reflexivity. Qed.

Example new_dimensions_sliver :
  new_dimensions 5000 1 = Some (1024, 0).
Proof. reflexivity. Qed.

End Dimensions.

Lemma optimizeImage_in_browser (br : Browser) (base64 : Js.str)
  (mimeType : string) (width height : N) :
  decodes br base64 mimeType width height ->
  optimizeImage br base64 mimeType =
    match new_dimensions width height with
    | None => Js.Fulfilled (unchanged base64 mimeType)
    | Some (w, h) =>
        if getContext_2d br w h then
          Js.Fulfilled
            {| data :=
                 Js.index
                   (Js.split
                      (toDataURL br (scaled_canvas base64 mimeType w h)
                         "image/jpeg" 0.85%Q) ",") 1;
               out_mimeType := "image/jpeg" |}
        else Js.Fulfilled (unchanged base64 mimeType)
    end.
Proof.
  intros (Hwin & Himg & Hdec).
  unfold optimizeImage. rewrite Hwin, Himg, Hdec. simpl.
  destruct (new_dimensions width height) as [[w h]|]; [|reflexivity].
  destruct (getContext_2d br w h); reflexivity.
Qed.

(** C2. An image that decodes with both sides at most 1024 px comes back
    unchanged: the same base64 data and the same MIME type. *)
Theorem small_image_unchanged (br : Browser) (base64 : Js.str)
  (mimeType : string) (width height : N) :
  decodes br base64 mimeType width height ->
  (width <= 1024)%N -> (height <= 1024)%N ->
  optimizeImage br base64 mimeType =
    Js.Fulfilled {| data := base64; out_mimeType := mimeType |}.
Proof.
  intros Hdec Hw Hh.
  rewrite (optimizeImage_in_browser _ _ _ _ _ Hdec).
  now rewrite (new_dimensions_small _ _ Hw Hh).
Qed.

Lemma small_image_unchanged_witness :
  optimizeImage (sample_browser true (onload 1024 768))
    (Js.Str "iVBORw0KGgo=") "image/png" =
    Js.Fulfilled {| data := Js.Str "iVBORw0KGgo=";
                    out_mimeType := "image/png" |}.
Proof.
  apply (small_image_unchanged _ _ _ 1024 768).
  - repeat split.
  - vm_compute. discriminate.
  - vm_compute. discriminate.
Defined.

(** C3, as the code has it.  An image that decodes with a side above
    1024 px gets dimensions whose longer side is exactly 1024 and whose
    other side is the proportionally scaled value rounded to the nearest
    pixel; when the canvas of that size gets its 2D context, the image is
    encoded as "image/jpeg" at quality 0.85 and the output MIME type is
    "image/jpeg". *)
Theorem large_image_resized (br : Browser) (base64 : Js.str)
  (mimeType : string) (width height : N) :
  decodes br base64 mimeType width height ->
  (1024 < width \/ 1024 < height)%N ->
  context_available br width height ->
  resized_as_jpeg br base64 mimeType width height.
Proof.
  intros Hdec Hbig Hctx.
  destruct (new_dimensions_large width height Hbig)
    as (w & h & Hnew & Hmax & Hnear).
  exists w, h. repeat split; try assumption; try apply Hnear.
  rewrite (optimizeImage_in_browser _ _ _ _ _ Hdec), Hnew.
  now rewrite (Hctx w h Hnew).
Qed.

Lemma large_image_resized_witness :
  resized_as_jpeg (sample_browser true (onload 2000 1000))
    (Js.Str "iVBORw0KGgo=") "image/png" 2000 1000
  /\ new_dimensions 2000 1000 = Some (1024, 512)%N.
Proof.
  split; [|reflexivity].
  apply large_image_resized.
  - repeat split.
  - left. reflexivity.
  - intros w h _. reflexivity.
Defined.

(** C3, as the specification states it, fails where the canvas gets no 2D
    context: a 2000 by 1000 PNG then comes back as the PNG it was. *)
Lemma large_image_without_context_stays_png :
  decodes (sample_browser false (onload 2000 1000))
    (Js.Str "iVBORw0KGgo=") "image/png" 2000 1000 /\
  (1024 < 2000)%N /\
  optimizeImage (sample_browser false (onload 2000 1000))
    (Js.Str "iVBORw0KGgo=") "image/png"
    = Js.Fulfilled {| data := Js.Str "iVBORw0KGgo=";
                      out_mimeType := "image/png" |} /\
  ~ resized_as_jpeg (sample_browser false (onload 2000 1000))
      (Js.Str "iVBORw0KGgo=") "image/png" 2000 1000.
Proof.
  split; [repeat split | split; [reflexivity | split; [reflexivity|]]].
  intros (w & h & _ & _ & _ & Hopt).
  cbv in Hopt. discriminate Hopt.
Qed.

Lemma optimizeImage_resolves (br : Browser) (base64 : Js.str)
  (mimeType : string) :
  exists r, optimizeImage br base64 mimeType = Js.Fulfilled r.
Proof.
  unfold optimizeImage.
  destruct (negb (window_defined br) || negb (Image_defined br));
    [eexists; reflexivity|].
  destruct (decode br (image_src base64 mimeType)) as [|width height];
    [eexists; reflexivity|].
  destruct (new_dimensions width height) as [[w h]|];
    [|eexists; reflexivity].
  destruct (negb (getContext_2d br w h)); eexists; reflexivity.
Qed.

Lemma optimizeImage_fallback (br : Browser) (base64 : Js.str)
  (mimeType : string) :
  optimizer_fails br base64 mimeType ->
  optimizeImage br base64 mimeType = Js.Fulfilled (unchanged base64 mimeType).
Proof.
  unfold optimizeImage, unchanged.
  intros [Hwin | Himg | Hdec | width height w h Hdec Hnew Hctx].
  - now rewrite Hwin.
  - rewrite Himg. now rewrite orb_true_r.
  - destruct (negb (window_defined br) || negb (Image_defined br));
      [reflexivity | now rewrite Hdec].
  - destruct (negb (window_defined br) || negb (Image_defined br));
      [reflexivity | now rewrite Hdec, Hnew, Hctx].
Qed.

(** C4. The optimizer never raises: it resolves for every input and every
    runtime; where it cannot do its work (no browser, a failed decode, no
    canvas context) it resolves with the data and MIME type it was given;
    and the generation client goes on to its remote call with what the
    optimizer resolved with, so that its outcome is that of the remote call
    and of the extraction. *)
Theorem optimizer_failure_absorbed (br : Browser) (input : ProcessedImage) :
  exists r,
    optimizeImage br (base64 input) (mimeType input) = Js.Fulfilled r /\
    (optimizer_fails br (base64 input) (mimeType input) ->
     r = {| data := base64 input; out_mimeType := mimeType input |}) /\
    forall (generateContent : Remote) (strength : StyleStrength),
      generateRickAndMortyStyle br generateContent input strength =
        (await response <- generateContent (build_request r strength) ;;
         extract_image response).
Proof.
  destruct (optimizeImage_resolves br (base64 input) (mimeType input))
    as [r Hr].
  exists r. split; [exact Hr | split].
  - intros Hfail. apply optimizeImage_fallback in Hfail.
    rewrite Hr in Hfail. now injection Hfail.
  - intros generateContent strength.
    unfold generateRickAndMortyStyle. now rewrite Hr.
Qed.

Lemma optimizer_failure_absorbed_witness :
  optimizeImage (sample_browser true onerror)
    (base64 photo_image) (mimeType photo_image)
  = Js.Fulfilled {| data := base64 photo_image;
                    out_mimeType := mimeType photo_image |}.
Proof.
  destruct (optimizer_failure_absorbed (sample_browser true onerror)
              photo_image) as (r & Hr & Hfail & _).
  rewrite Hr. f_equal. apply Hfail.
  apply fails_decode. reflexivity.
Defined.

(* ================================================================== *)
(** ** The generation client *)

Lemma issued_request_prompt (br : Browser) (input : ProcessedImage)
  (strength : StyleStrength) :
  exists req,
    issued_request br input strength = Js.Fulfilled req /\
    text req = prompt strength /\
    config_temperature req = temperature strength.
Proof.
  unfold issued_request.
  destruct (optimizeImage_resolves br (base64 input) (mimeType input))
    as [r ->].
  eexists. split; [reflexivity | split; reflexivity].
Qed.

(** C5. The prompt and the creativity parameter of a request depend on the
    strength alone: two calls with [strong], whatever their images and
    runtimes, issue the same prompt text with temperature 0.75, and two
    calls with [balanced] the same prompt text with temperature 0.65. *)
Theorem prompt_depends_on_strength_only
  (br1 br2 : Browser) (input1 input2 : ProcessedImage) :
  (exists req1 req2,
     issued_request br1 input1 strong = Js.Fulfilled req1 /\
     issued_request br2 input2 strong = Js.Fulfilled req2 /\
     text req1 = text req2 /\
     config_temperature req1 = 0.75%Q /\
     config_temperature req2 = 0.75%Q) /\
  (exists req1 req2,
     issued_request br1 input1 balanced = Js.Fulfilled req1 /\
     issued_request br2 input2 balanced = Js.Fulfilled req2 /\
     text req1 = text req2 /\
     config_temperature req1 = 0.65%Q /\
     config_temperature req2 = 0.65%Q).
Proof.
  split.
  - destruct (issued_request_prompt br1 input1 strong)
      as (req1 & H1 & Ht1 & Hc1).
    destruct (issued_request_prompt br2 input2 strong)
      as (req2 & H2 & Ht2 & Hc2).
    exists req1, req2. rewrite Ht1, Ht2, Hc1, Hc2.
    repeat split; assumption.
  - destruct (issued_request_prompt br1 input1 balanced)
      as (req1 & H1 & Ht1 & Hc1).
    destruct (issued_request_prompt br2 input2 balanced)
      as (req2 & H2 & Ht2 & Hc2).
    exists req1, req2. rewrite Ht1, Ht2, Hc1, Hc2.
    repeat split; assumption.
Qed.

Lemma scan_parts_none (ps : list Part) :
  scan_parts ps = None <-> ~ holds_image ps.
Proof.
  unfold holds_image. induction ps as [|part ps IH]; simpl.
  - split; [intros _ (p & d & [] & _) | reflexivity].
  - destruct (part_image part) as [d|] eqn:Hpart.
    + split; [discriminate|]. intros H. elim H.
      exists part, d. split; [now left | exact Hpart].
    + rewrite IH. split; intros H (p & d & Hin & Hp); apply H.
      * destruct Hin as [<- | Hin]; [congruence|]. now exists p, d.
      * exists p, d. split; [now right | exact Hp].
Qed.

(** The scan returns the first part that carries image data. *)
Lemma scan_parts_first (ps : list Part) (url : string) :
  scan_parts ps = Some url <->
  exists skipped part d rest,
    ps = (skipped ++ part :: rest)%list /\
    Forall (fun p => part_image p = None) skipped /\
    part_image part = Some d /\
    url = "data:image/png;base64," ++ d.
Proof.
  induction ps as [|p ps IH]; simpl.
  - split; [discriminate|].
    intros (skipped & part & d & rest & H & _). now destruct skipped.
  - destruct (part_image p) as [d|] eqn:Hp.
    + split.
      * intros H. injection H as <-.
        exists [], p, d, ps. repeat split; [constructor | exact Hp].
      * intros (skipped & part & d' & rest & Heq & Hall & Hd & ->).
        destruct skipped as [|q skipped]; simpl in Heq;
          injection Heq as -> ->.
        -- congruence.
        -- inversion Hall; congruence.
    + rewrite IH. split.
      * intros (skipped & part & d & rest & -> & Hall & Hd & ->).
        exists (p :: skipped), part, d, rest.
        repeat split; [now constructor | exact Hd].
      * intros (skipped & part & d & rest & Heq & Hall & Hd & ->).
        destruct skipped as [|q skipped]; simpl in Heq;
          injection Heq as -> ->.
        -- congruence.
        -- exists skipped, part, d, rest.
           repeat split; [now inversion Hall | exact Hd].
Qed.

(** Where the first candidate has content, the extraction is as the
    specification says: the first image part, or the no-image error. *)
Lemma extract_image_with_content (first : Candidate) (others : list Candidate)
  (c : Content) :
  content first = Some c ->
  let response := {| candidates := Some (first :: others) |} in
  extract_image response =
    match scan_parts (response_parts response) with
    | Some url => Js.Fulfilled url
    | None => Js.Rejected Js.NoImageError
    end.
Proof.
  intros Hc. destruct first as [fc]. simpl in Hc. subst fc.
  destruct c as [[ps|]]; reflexivity.
Qed.

(** C6 at a response whose first candidate carries no content (and at one
    with no candidate at all): no part holds image data, yet what is raised
    is not the no-image error but the [TypeError] of the property access,
    and its engine text is what the controller shows. *)
Theorem contentless_candidate_raises_type_error :
  ~ holds_image (response_parts blocked_response) /\
  extract_image blocked_response = Js.Rejected (Js.TypeError "parts") /\
  extract_image blocked_response <> Js.Rejected Js.NoImageError /\
  extract_image {| candidates := Some [] |}
    = Js.Rejected (Js.TypeError "content") /\
  (forall br input strength,
     generateRickAndMortyStyle br (fun _ => Js.Fulfilled blocked_response)
       input strength = Js.Rejected (Js.TypeError "parts")) /\
  error (settle_in (sample_browser true onerror)
           (fun _ => Js.Fulfilled blocked_response)
           photo_generation generating)
    = Some "Cannot read properties of undefined (reading 'parts')".
Proof.
  split; [apply scan_parts_none; reflexivity|].
  split; [reflexivity|]. split; [discriminate|]. split; [reflexivity|].
  split; [|reflexivity].
  intros br input strength. unfold generateRickAndMortyStyle.
  destruct (optimizeImage_resolves br (base64 input) (mimeType input))
    as [r ->].
  reflexivity.
Qed.

(* ================================================================== *)
(** ** More on the image optimizer *)

Section Scaling.

Open Scope N_scope.

(** The two ways [new_dimensions] scales. *)
Lemma new_dimensions_cases (width height w h : N) :
  new_dimensions width height = Some (w, h) ->
  (height < width /\ 1024 < width /\
   w = 1024 /\ h = Js.round_div (height * 1024) width) \/
  (width <= height /\ 1024 < height /\
   w = Js.round_div (width * 1024) height /\ h = 1024).
Proof.
  unfold new_dimensions, MAX_DIMENSION.
  destruct ((1024 <? width) || (1024 <? height)) eqn:Hbig; [|discriminate].
  apply orb_true_iff in Hbig. rewrite !N.ltb_lt in Hbig.
  destruct (height <? width) eqn:Hcmp; intros H; injection H as <- <-.
  - apply N.ltb_lt in Hcmp. left. repeat split; lia.
  - apply N.ltb_ge in Hcmp. right. repeat split; lia.
Qed.

(** Scaling down does not enlarge the side it scales. *)
Lemma round_div_no_larger (short long : N) :
  1024 < long -> Js.round_div (short * 1024) long <= short.
Proof.
  intros Hlong. unfold Js.round_div.
  apply N.lt_succ_r. apply N.Div0.div_lt_upper_bound. nia.
Qed.

Lemma round_div_zero (a b : N) :
  0 < b -> (Js.round_div a b = 0 <-> 2 * a < b).
Proof.
  intros Hb. pose proof (round_div_nearest a b Hb) as [Hle Hlt].
  split; intros H.
  - rewrite H in Hlt. lia.
  - destruct (Js.round_div a b) as [|q] eqn:E; [reflexivity|]. nia.
Qed.

Lemma new_dimensions_bounds (width height w h : N) :
  new_dimensions width height = Some (w, h) ->
  w <= 1024 /\ h <= 1024 /\ w <= width /\ h <= height.
Proof.
  intros H.
  destruct (new_dimensions_cases _ _ _ _ H)
    as [(Hcmp & Hbig & -> & ->) | (Hcmp & Hbig & -> & ->)].
  - pose proof (round_div_shorter height width) as Hs.
    pose proof (round_div_no_larger height width Hbig) as Hn.
    unfold MAX_DIMENSION in Hs. repeat split; lia.
  - pose proof (round_div_shorter width height) as Hs.
    pose proof (round_div_no_larger width height Hbig) as Hn.
    unfold MAX_DIMENSION in Hs. repeat split; lia.
Qed.

End Scaling.

(** X1. The dimensions the optimizer scales to fit the 1024 px box and never
    exceed the decoded ones: no side is enlarged. *)
Theorem scaled_dimensions_fit (width height w h : N) :
  new_dimensions width height = Some (w, h) ->
  (w <= 1024 /\ h <= 1024 /\ w <= width /\ h <= height)%N.
Proof.
  intros H.
  destruct (new_dimensions_cases _ _ _ _ H)
    as [(Hcmp & Hbig & -> & ->) | (Hcmp & Hbig & -> & ->)].
  - pose proof (round_div_shorter height width) as Hs.
    pose proof (round_div_no_larger height width Hbig) as Hn.
    unfold MAX_DIMENSION in Hs. repeat split; lia.
  - pose proof (round_div_shorter width height) as Hs.
    pose proof (round_div_no_larger width height Hbig) as Hn.
    unfold MAX_DIMENSION in Hs. repeat split; lia.
Qed.

Lemma scaled_dimensions_fit_witness :
  new_dimensions 2000 3001 = Some (682, 1024)%N /\
  (682 <= 1024 /\ 1024 <= 1024 /\ 682 <= 2000 /\ 1024 <= 3001)%N.
Proof.
  split; [reflexivity|].
  apply (scaled_dimensions_fit 2000 3001 682 1024). reflexivity.
Defined.

(** X2. A second pass finds nothing to do: an image that decodes at the size
    the optimizer scales to comes back unchanged, without another lossy
    encoding. *)
Theorem scaled_size_left_alone (width height w h : N) (br : Browser)
  (base64 : Js.str) (mimeType : string) :
  new_dimensions width height = Some (w, h) ->
  decodes br base64 mimeType w h ->
  optimizeImage br base64 mimeType =
    Js.Fulfilled {| data := base64; out_mimeType := mimeType |}.
Proof.
  intros Hnew Hdec.
  destruct (new_dimensions_bounds _ _ _ _ Hnew) as (Hw & Hh & _).
  rewrite (optimizeImage_in_browser _ _ _ _ _ Hdec).
  now rewrite (new_dimensions_small _ _ Hw Hh).
Qed.

Lemma scaled_size_left_alone_witness :
  optimizeImage (sample_browser true (onload 1024 512))
    (Js.Str "/9j/4AAQ") "image/jpeg" =
    Js.Fulfilled {| data := Js.Str "/9j/4AAQ"; out_mimeType := "image/jpeg" |}.
Proof.
  apply (scaled_size_left_alone 2000 1000 1024 512).
  - reflexivity.
  - repeat split.
Defined.

(** X3. The scaled image loses a side exactly when the picture is more than
    2048 times longer than it is wide, or wider than it is long: then the
    shorter side rounds to 0 px and the canvas is empty; in every other case
    both scaled sides are at least 1 px. *)
Theorem scaled_side_vanishes (width height w h : N) :
  new_dimensions width height = Some (w, h) ->
  (h = 0 <-> 2048 * height < width)%N /\
  (w = 0 <-> 2048 * width < height)%N.
Proof.
  intros H.
  destruct (new_dimensions_cases _ _ _ _ H)
    as [(Hcmp & Hbig & -> & ->) | (Hcmp & Hbig & -> & ->)].
  - split; [|split; intros; lia].
    rewrite round_div_zero by lia. lia.
  - split; [split; intros; lia|].
    rewrite round_div_zero by lia. lia.
Qed.

Lemma scaled_side_vanishes_witness :
  new_dimensions 5000 1 = Some (1024, 0)%N /\
  ((0 = 0 <-> 2048 * 1 < 5000) /\ (1024 = 0 <-> 2048 * 5000 < 1))%N.
Proof.
  split; [reflexivity|].
  apply (scaled_side_vanishes 5000 1 1024 0). reflexivity.
Defined.

(** X4. Whatever the runtime does, the optimizer resolves in one of two
    ways: with the input as it came, or, for an image decoded with a side
    above 1024 px whose canvas got a context, with the "image/jpeg"
    encoding at quality 0.85 of the canvas of the scaled size. *)
Theorem optimizeImage_outcomes (br : Browser) (base64 : Js.str)
  (mimeType : string) (r : OptimizedImage) :
  optimizeImage br base64 mimeType = Js.Fulfilled r ->
  r = {| data := base64; out_mimeType := mimeType |} \/
  exists width height w h,
    decodes br base64 mimeType width height /\
    (1024 < width \/ 1024 < height)%N /\
    new_dimensions width height = Some (w, h) /\
    getContext_2d br w h = true /\
    r = {| data :=
             Js.index
               (Js.split
                  (toDataURL br (scaled_canvas base64 mimeType w h)
                     "image/jpeg" 0.85%Q) ",") 1;
           out_mimeType := "image/jpeg" |}.
Proof.
  unfold optimizeImage, unchanged.
  destruct (window_defined br) eqn:Hwin; simpl;
    [|intros H; injection H as <-; now left].
  destruct (Image_defined br) eqn:Himg; simpl;
    [|intros H; injection H as <-; now left].
  destruct (decode br (image_src base64 mimeType)) as [|width height] eqn:Hdec;
    [intros H; injection H as <-; now left|].
  destruct (new_dimensions width height) as [[w h]|] eqn:Hnew;
    [|intros H; injection H as <-; now left].
  destruct (getContext_2d br w h) eqn:Hctx; simpl;
    intros H; injection H as <-; [|now left].
  right. exists width, height, w, h.
  repeat split; try assumption.
  destruct (new_dimensions_cases _ _ _ _ Hnew)
    as [(_ & Hbig & _) | (_ & Hbig & _)]; [now left | now right].
Qed.

Lemma optimizeImage_outcomes_witness :
  let r := {| data := Js.Str "/9j/4AAQ"; out_mimeType := "image/jpeg" |} in
  r = {| data := Js.Str "iVBORw0KGgo="; out_mimeType := "image/png" |} \/
  exists width height w h,
    decodes (sample_browser true (onload 2000 1000))
      (Js.Str "iVBORw0KGgo=") "image/png" width height /\
    (1024 < width \/ 1024 < height)%N /\
    new_dimensions width height = Some (w, h) /\
    getContext_2d (sample_browser true (onload 2000 1000)) w h = true /\
    r = {| data :=
             Js.index
               (Js.split
                  (toDataURL (sample_browser true (onload 2000 1000))
                     (scaled_canvas (Js.Str "iVBORw0KGgo=") "image/png" w h)
                     "image/jpeg" 0.85%Q) ",") 1;
           out_mimeType := "image/jpeg" |}.
Proof.
  intros r.
  apply (optimizeImage_outcomes (sample_browser true (onload 2000 1000))).
  reflexivity.
Defined.

(* ================================================================== *)
(** ** More on the generation client *)

Lemma part_image_data (part : Part) (d : string) :
  part_image part = Some d <->
  d <> "" /\ part_inlineData part = Some {| inline_data := Js.Str d |}.
Proof.
  unfold part_image. destruct part as [[[[|s]]|] t]; simpl.
  - split; [discriminate | intros [_ H]; discriminate H].
  - destruct s as [|a s]; simpl.
    + split; [discriminate|]. intros [Hd H]. injection H as E. congruence.
    + split.
      * intros H. injection H as <-. split; [discriminate | reflexivity].
      * intros [_ H]. injection H as E. congruence.
  - split; [discriminate | intros [_ H]; discriminate H].
Qed.

Lemma extract_image_readable (response : Response) :
  readable response ->
  extract_image response =
    match scan_parts (response_parts response) with
    | Some url => Js.Fulfilled url
    | None => Js.Rejected Js.NoImageError
    end.
Proof.
  destruct response as [[[|[[[[ps|]]|]] others]|]]; simpl;
    try reflexivity; intros H; now elim H.
Qed.

Lemma extract_image_fulfilled (response : Response) (url : string) :
  extract_image response = Js.Fulfilled url ->
  scan_parts (response_parts response) = Some url.
Proof.
  destruct response as [[[|[[[[ps|]]|]] others]|]];
    unfold extract_image, response_parts; simpl; try discriminate.
  destruct (scan_parts ps); intros H; [congruence | discriminate].
Qed.

Lemma scan_parts_image_of (response : Response) (url : string) :
  scan_parts (response_parts response) = Some url ->
  exists d, image_of response d /\ url = "data:image/png;base64," ++ d.
Proof.
  intros H. apply scan_parts_first in H.
  destruct H as (skipped & part & d & rest & Hps & _ & Hd & ->).
  apply part_image_data in Hd. destruct Hd as [Hne Hinline].
  exists d. split; [|reflexivity]. split; [exact Hne|].
  exists part. split; [|exact Hinline].
  rewrite Hps. apply in_or_app. right. now left.
Qed.

Lemma generate_fulfilled (br : Browser) (generateContent : Remote)
  (input : ProcessedImage) (st : StyleStrength) (url : string) :
  generateRickAndMortyStyle br generateContent input st = Js.Fulfilled url ->
  exists req response d,
    issued_request br input st = Js.Fulfilled req /\
    generateContent req = Js.Fulfilled response /\
    image_of response d /\
    url = "data:image/png;base64," ++ d.
Proof.
  unfold generateRickAndMortyStyle, issued_request.
  destruct (optimizeImage_resolves br (base64 input) (mimeType input))
    as [r ->]. simpl.
  destruct (generateContent (build_request r st)) as [response|e] eqn:Hgc;
    simpl; [|discriminate].
  intros H. apply extract_image_fulfilled, scan_parts_image_of in H.
  destruct H as (d & Himg & ->).
  exists (build_request r st), response, d. repeat split; try assumption.
  - apply Himg.
  - apply Himg.
Qed.

(** X5. One call of the client makes exactly one call of the remote, with
    the request it issued, and its outcome is that of the extraction on
    that one answer; so when the remote rejects that call, the client
    rejects with the very same error: nothing is retried or rewrapped. *)
Theorem one_remote_call_per_generation (br : Browser) (service : Service)
  (input : ProcessedImage) (st : StyleStrength) (calls : list Request) :
  exists req,
    issued_request br input st = Js.Fulfilled req /\
    snd (generateRickAndMortyStyle_calls br service input st calls)
    = (calls ++ [req])%list /\
    fst (generateRickAndMortyStyle_calls br service input st calls)
    = generateRickAndMortyStyle br (service (length calls)) input st /\
    forall e,
      service (length calls) req = Js.Rejected e ->
      fst (generateRickAndMortyStyle_calls br service input st calls)
      = Js.Rejected e.
Proof.
  unfold generateRickAndMortyStyle_calls, generateRickAndMortyStyle,
    issued_request, generateContent_call.
  destruct (optimizeImage_resolves br (base64 input) (mimeType input))
    as [r ->]. cbn [Js.bind fst snd].
  exists (build_request r st).
  split; [reflexivity | split; [reflexivity | split; [reflexivity|]]].
  intros e He. now rewrite He.
Qed.

Lemma one_remote_call_per_generation_witness :
  generateRickAndMortyStyle_calls (sample_browser true (onload 640 480))
    failing_once photo_image strong []
  = (Js.Rejected (Js.RemoteError (Some "Rpc failed due to xhr error")),
     [build_request (unchanged (base64 photo_image) (mimeType photo_image))
        strong]).
Proof.
  destruct (one_remote_call_per_generation
              (sample_browser true (onload 640 480)) failing_once
              photo_image strong []) as (req & Hreq & Hcalls & _ & Hfail).
  injection Hreq as <-.
  rewrite (surjective_pairing (generateRickAndMortyStyle_calls _ _ _ _ _)).
  rewrite Hcalls, (Hfail _ eq_refl). reflexivity.
Defined.

(** X6. Whenever the client fulfils, its value is a PNG data URL:
    "data:image/png;base64," followed by the non-empty inline data of a part
    of the first candidate of the response to the request it issued. *)
Theorem generated_url_is_png_data_url (br : Browser)
  (generateContent : Remote) (input : ProcessedImage) (st : StyleStrength)
  (url : string) :
  generateRickAndMortyStyle br generateContent input st = Js.Fulfilled url ->
  exists req response d,
    issued_request br input st = Js.Fulfilled req /\
    generateContent req = Js.Fulfilled response /\
    image_of response d /\
    url = "data:image/png;base64," ++ d.
Proof.
  intros H.
  destruct (generate_fulfilled _ _ _ _ _ H)
    as (req & response & d & Hreq & Hgc & Himg & Hurl).
  exists req, response, d.
  split; [exact Hreq | split; [exact Hgc | split; [exact Himg | exact Hurl]]].
Qed.

Lemma generated_url_is_png_data_url_witness :
  exists req response d,
    issued_request (sample_browser true (onload 640 480)) photo_image balanced
      = Js.Fulfilled req /\
    (fun _ => Js.Fulfilled image_response) req = Js.Fulfilled response /\
    image_of response d /\
    "data:image/png;base64,iVBORw0KGgoAAA" = "data:image/png;base64," ++ d.
Proof.
  apply (generated_url_is_png_data_url (sample_browser true (onload 640 480))
           (fun _ => Js.Fulfilled image_response) photo_image balanced).
  reflexivity.
Defined.

(** X7. For a response that can be read as far as its parts (no candidate
    list, or a first candidate with content), the extraction fulfils with
    the first part that carries non-empty inline data, wrapped as a PNG data
    URL, skipping the parts before it; it rejects with the no-image error
    exactly when no part carries such data; and it rejects with nothing
    else. *)
Theorem extraction_of_readable_response (response : Response) :
  readable response ->
  (forall url,
     extract_image response = Js.Fulfilled url <->
     exists skipped part d rest,
       response_parts response = (skipped ++ part :: rest)%list /\
       Forall (fun p => part_image p = None) skipped /\
       part_image part = Some d /\
       url = "data:image/png;base64," ++ d) /\
  (extract_image response = Js.Rejected Js.NoImageError <->
   ~ holds_image (response_parts response)) /\
  (forall e, extract_image response = Js.Rejected e -> e = Js.NoImageError).
Proof.
  intros Hr. rewrite (extract_image_readable response Hr).
  split; [|split].
  - intros url. rewrite <- scan_parts_first.
    destruct (scan_parts (response_parts response)); split; intros H;
      try discriminate; congruence.
  - rewrite <- scan_parts_none.
    destruct (scan_parts (response_parts response)); split; intros H;
      try discriminate; reflexivity.
  - intros e.
    destruct (scan_parts (response_parts response)); intros H;
      [discriminate | now injection H as <-].
Qed.

Lemma extraction_of_readable_response_witness :
  extract_image image_response
  = Js.Fulfilled "data:image/png;base64,iVBORw0KGgoAAA".
Proof.
  destruct (extraction_of_readable_response image_response) as (Hok & _).
  - discriminate.
  - apply Hok.
    exists [ {| part_inlineData := None; part_text := Some "Here you go" |} ],
      {| part_inlineData := Some {| inline_data := Js.Str "iVBORw0KGgoAAA" |};
         part_text := None |},
      "iVBORw0KGgoAAA", [].
    repeat split. constructor; [reflexivity | constructor].
Defined.

(* ================================================================== *)
(** ** More on the controller *)

Section DataUrls.

Lemma append_assoc (a b c : string) : (a ++ b) ++ c = a ++ b ++ c.
Proof. induction a as [|x a IH]; simpl; [reflexivity | now rewrite IH]. Qed.

Lemma no_comma_cons (c : ascii) (s : string) :
  no_comma (String c s) <-> c <> ","%char /\ no_comma s.
Proof.
  unfold no_comma, occurs_in. split.
  - intros H. split.
    + intros ->. apply H. now exists "", s.
    + intros (before & after & ->). apply H.
      now exists (String c before), after.
  - intros [Hc Hs] (before & after & H).
    destruct before as [|b before]; simpl in H; injection H as H1 H2.
    + now elim Hc.
    + apply Hs. now exists before, after.
Qed.

Lemma no_comma_append (a b : string) :
  no_comma a -> no_comma b -> no_comma (a ++ b).
Proof.
  induction a as [|x a IH]; simpl; [easy|].
  rewrite !no_comma_cons. intros [Hx Ha] Hb. split; [exact Hx | now apply IH].
Qed.

Lemma split_no_comma (s : string) :
  no_comma s -> Js.split s "," = [s].
Proof.
  induction s as [|c s IH]; [reflexivity|].
  rewrite no_comma_cons. intros [Hc Hs]. simpl.
  apply Ascii.eqb_neq in Hc. rewrite Hc. now rewrite (IH Hs).
Qed.

Lemma split_at_comma (a b : string) :
  no_comma a -> Js.split (a ++ "," ++ b) "," = a :: Js.split b ",".
Proof.
  induction a as [|c a IH]; [reflexivity|].
  rewrite no_comma_cons. intros [Hc Ha]. simpl.
  apply Ascii.eqb_neq in Hc. rewrite Hc.
  change (Js.split (a ++ String "," b) ",") with (Js.split (a ++ "," ++ b) ",").
  now rewrite (IH Ha).
Qed.

(** [dataUrl.split(',')[1]] is the payload of a data URL. *)
Lemma data_url_payload (mime payload : string) :
  no_comma mime -> no_comma payload ->
  Js.index (Js.split ("data:" ++ mime ++ ";base64," ++ payload) ",") 1
  = Js.Str payload.
Proof.
  intros Hm Hp.
  assert (Hhead : no_comma ("data:" ++ mime ++ ";base64")).
  { apply (no_comma_append "data:"); [|apply no_comma_append; [exact Hm|]];
      apply includes_false; reflexivity. }
  replace ("data:" ++ mime ++ ";base64," ++ payload)
    with (("data:" ++ mime ++ ";base64") ++ "," ++ payload).
  - rewrite (split_at_comma _ _ Hhead), (split_no_comma _ Hp). reflexivity.
  - rewrite (append_assoc "data:"), (append_assoc mime). reflexivity.
Qed.

End DataUrls.

(** X8. The picture survives the trip through the reader: when the read
    ends with the data URL of a file whose type and base64 payload hold no
    comma, the image stored as original and handed to the generation is the
    payload under the file's type, and both the "Original" preview and the
    image the optimizer decodes are that same data URL again. *)
Theorem preview_is_the_file_read (p : PendingRead) (payload : string)
  (c : Controller) :
  no_comma (file_type (read_file p)) ->
  no_comma payload ->
  let url := "data:" ++ file_type (read_file p) ++ ";base64," ++ payload in
  let input :=
    {| base64 := Js.Str payload; mimeType := file_type (read_file p) |} in
  onloadend p (Some url) c =
    (setResult {| original := Some input; generated := None |} c,
     Some {| inputImage := input; strength := read_strength p |}) /\
  preview_src (fst (onloadend p (Some url) c)) = url /\
  image_src (base64 input) (mimeType input) = url.
Proof.
  intros Ht Hp url input. subst url input.
  unfold onloadend. cbv zeta. rewrite (data_url_payload _ _ Ht Hp).
  split; [reflexivity | split; reflexivity].
Qed.

Lemma preview_is_the_file_read_witness :
  preview_src
    (fst (onloadend photo_read (Some "data:image/png;base64,iVBORw0KGgo=")
            (fst (handleFileUpload select_photo initial))))
  = "data:image/png;base64,iVBORw0KGgo=".
Proof.
  assert (H1 : no_comma (file_type (read_file photo_read))).
  { apply includes_false. reflexivity. }
  assert (H2 : no_comma "iVBORw0KGgo=").
  { apply includes_false. reflexivity. }
  apply (preview_is_the_file_read photo_read "iVBORw0KGgo="
           (fst (handleFileUpload select_photo initial)) H1 H2).
Defined.

Section Pipeline.

(** The three shapes of a classified message. *)
Lemma classify_cases (message : option string) :
  classify message = CONNECTION_MESSAGE \/
  classify message = FORMAT_MESSAGE \/
  (classify message <> "" /\
   Js.includes (classify message) "Rpc failed" = false /\
   Js.includes (classify message) "500" = false /\
   Js.includes (classify message) "xhr error" = false /\
   Js.includes (classify message) "400" = false).
Proof.
  unfold classify.
  set (em := match message with
             | Some m => if Js.truthy_string m then m else FALLBACK_MESSAGE
             | None => FALLBACK_MESSAGE
             end).
  assert (Hem : em <> "").
  { subst em. destruct message as [[|a m]|]; discriminate. }
  destruct (Js.includes em "Rpc failed") eqn:H1; [now left|].
  destruct (Js.includes em "500") eqn:H2; [now left|].
  destruct (Js.includes em "xhr error") eqn:H3; [now left|].
  destruct (Js.includes em "400") eqn:H4; [right; now left|].
  right. right. simpl. auto.
Qed.

Lemma classify_nonempty (message : option string) : classify message <> "".
Proof.
  destruct (classify_cases message) as [-> | [-> | [H _]]];
    [discriminate | discriminate | exact H].
Qed.

(** A valid selection starts a read, and the end of the read a generation. *)
Lemma upload_reaches_generation (event : ChangeEvent) (c : Controller)
  (file : File) (others : list File) (reader_result : string) :
  files event = Some (file :: others) ->
  begins_with "image/" (file_type file) ->
  readAsDataURL_throws event = false ->
  let p := {| read_file := file; read_strength := styleStrength c |} in
  let input :=
    {| base64 := Js.index (Js.split reader_result ",") 1;
       mimeType := file_type file |} in
  let g := {| inputImage := input; strength := styleStrength c |} in
  let c1 := setError None (setAppState PROCESSING c) in
  let c2 := setResult {| original := Some input; generated := None |} c1 in
  handleFileUpload event c = (c1, Some p) /\
  onloadend p (Some reader_result) c1 = (c2, Some g).
Proof.
  intros Hfiles Htype Hthrow. cbv zeta.
  apply startsWith_begins_with in Htype.
  unfold handleFileUpload. rewrite Hfiles, Htype, Hthrow. simpl.
  split; reflexivity.
Qed.

End Pipeline.

(** X9. A successful upload runs through [PROCESSING] to [COMPLETE],
    whatever state it starts from: selecting a file of an image type clears
    any error message and sets [PROCESSING] without touching the result; the
    end of the read
    stores the image as original, with no generated image yet, and starts a
    generation with the style selected at the time of the selection; its
    success sets [COMPLETE] with that original and the generated image, and
    still no error. *)
Theorem successful_upload_completes (event : ChangeEvent) (c : Controller)
  (file : File) (others : list File) (reader_result url : string) :
  files event = Some (file :: others) ->
  begins_with "image/" (file_type file) ->
  readAsDataURL_throws event = false ->
  exists p g,
    let c1 := fst (handleFileUpload event c) in
    let c2 := fst (onloadend p (Some reader_result) c1) in
    let c3 := settle g (Js.Fulfilled url) c2 in
    snd (handleFileUpload event c) = Some p /\
    snd (onloadend p (Some reader_result) c1) = Some g /\
    appState c1 = PROCESSING /\ error c1 = None /\ result c1 = result c /\
    appState c2 = PROCESSING /\
    result c2 = {| original := Some (inputImage g); generated := None |} /\
    strength g = styleStrength c /\
    mimeType (inputImage g) = file_type file /\
    appState c3 = COMPLETE /\ error c3 = None /\
    result c3 = {| original := Some (inputImage g); generated := Some url |}.
Proof.
  intros Hfiles Htype Hthrow.
  destruct (upload_reaches_generation event c file others reader_result
              Hfiles Htype Hthrow) as [H1 H2].
  exists {| read_file := file; read_strength := styleStrength c |},
    {| inputImage :=
         {| base64 := Js.index (Js.split reader_result ",") 1;
            mimeType := file_type file |};
       strength := styleStrength c |}.
  cbv zeta. rewrite H1. cbn [fst snd]. rewrite H2. cbn [fst snd].
  repeat split.
Qed.

Lemma successful_upload_completes_witness :
  exists p g,
    let c1 := fst (handleFileUpload select_photo initial) in
    let c2 :=
      fst (onloadend p (Some "data:image/png;base64,iVBORw0KGgo=") c1) in
    let c3 := settle g (Js.Fulfilled "data:image/png;base64,AAAA") c2 in
    snd (handleFileUpload select_photo initial) = Some p /\
    snd (onloadend p (Some "data:image/png;base64,iVBORw0KGgo=") c1)
      = Some g /\
    appState c1 = PROCESSING /\ error c1 = None /\
    result c1 = result initial /\
    appState c2 = PROCESSING /\
    result c2 = {| original := Some (inputImage g); generated := None |} /\
    strength g = styleStrength initial /\
    mimeType (inputImage g) = file_type photo /\
    appState c3 = COMPLETE /\ error c3 = None /\
    result c3 = {| original := Some (inputImage g);
                   generated := Some "data:image/png;base64,AAAA" |}.
Proof.
  apply (successful_upload_completes select_photo initial photo []).
  - reflexivity.
  - apply startsWith_begins_with. reflexivity.
  - reflexivity.
Defined.

(** X10. A failed generation ends in [ERROR] with the classified message;
    the result record is not touched by the failure, so the original stored
    at the end of the read stays in it, beside no generated image. *)
Theorem failed_upload_keeps_original (event : ChangeEvent) (c : Controller)
  (file : File) (others : list File) (reader_result : string)
  (err : Js.error) :
  files event = Some (file :: others) ->
  begins_with "image/" (file_type file) ->
  readAsDataURL_throws event = false ->
  exists p g,
    let c1 := fst (handleFileUpload event c) in
    let c2 := fst (onloadend p (Some reader_result) c1) in
    let c3 := settle g (Js.Rejected err) c2 in
    snd (handleFileUpload event c) = Some p /\
    snd (onloadend p (Some reader_result) c1) = Some g /\
    appState c3 = ERROR /\
    error c3 = Some (classify (error_message err)) /\
    result c3 = {| original := Some (inputImage g); generated := None |} /\
    mimeType (inputImage g) = file_type file.
Proof.
  intros Hfiles Htype Hthrow.
  destruct (upload_reaches_generation event c file others reader_result
              Hfiles Htype Hthrow) as [H1 H2].
  exists {| read_file := file; read_strength := styleStrength c |},
    {| inputImage :=
         {| base64 := Js.index (Js.split reader_result ",") 1;
            mimeType := file_type file |};
       strength := styleStrength c |}.
  cbv zeta. rewrite H1. cbn [fst snd]. rewrite H2. cbn [fst snd].
  repeat split.
Qed.

Lemma failed_upload_keeps_original_witness :
  exists p g,
    let c1 := fst (handleFileUpload select_photo initial) in
    let c2 :=
      fst (onloadend p (Some "data:image/png;base64,iVBORw0KGgo=") c1) in
    let c3 := settle g (Js.Rejected Js.NoImageError) c2 in
    snd (handleFileUpload select_photo initial) = Some p /\
    snd (onloadend p (Some "data:image/png;base64,iVBORw0KGgo=") c1)
      = Some g /\
    appState c3 = ERROR /\
    error c3 = Some (classify (error_message Js.NoImageError)) /\
    result c3 = {| original := Some (inputImage g); generated := None |} /\
    mimeType (inputImage g) = file_type photo.
Proof.
  apply (failed_upload_keeps_original select_photo initial photo []).
  - reflexivity.
  - apply startsWith_begins_with. reflexivity.
  - reflexivity.
Defined.

(** X11. Every failed generation can be retried: whatever the error and
    whatever its message (absent, empty or any text), the message set is
    non-empty, so the error box is rendered and with it "Try Again". *)
Theorem failure_offers_retry (g : PendingGeneration) (err : Js.error)
  (c : Controller) :
  error_shown (settle g (Js.Rejected err) c) = true /\
  reset_offered (settle g (Js.Rejected err) c) = true /\
  appState (handleReset (settle g (Js.Rejected err) c)) = IDLE.
Proof.
  assert (Hshown : error_shown (settle g (Js.Rejected err) c) = true).
  { unfold error_shown. simpl. apply truthy_string_nonempty.
    apply classify_nonempty. }
  split; [exact Hshown | split; [|reflexivity]].
  unfold reset_offered. now rewrite Hshown.
Qed.

(** X12. Classification is idempotent: a message that came out of it maps to
    itself, since neither friendly message holds one of the patterns
    searched for. *)
Theorem classification_is_stable (message : option string) :
  classify (Some (classify message)) = classify message.
Proof.
  destruct (classify_cases message)
    as [-> | [-> | (Hne & H1 & H2 & H3 & H4)]];
    [reflexivity | reflexivity |].
  rewrite (classify_described _ Hne). now rewrite H1, H2, H3, H4.
Qed.

(* ================================================================== *)
(** ** Sessions *)

Lemma upload_offered_idle (c : Controller) :
  upload_offered c = true <-> appState c = IDLE.
Proof.
  unfold upload_offered, is_state.
  destruct (appState c); split; congruence.
Qed.

Lemma reset_offered_not_processing (c : Controller) :
  reset_offered c = true -> error c = None -> appState c = COMPLETE.
Proof.
  unfold reset_offered, error_shown, result_shown, is_state.
  intros H He. rewrite He in H. simpl in H.
  destruct (appState c); try discriminate. reflexivity.
Qed.

Lemma single_element {A : Type} (before after : list A) (x : A) (n : nat) :
  (length (before ++ x :: after) + n <= 1)%nat ->
  before = [] /\ after = [] /\ n = 0%nat.
Proof.
  rewrite length_app. simpl.
  destruct before, after; simpl; intros H; repeat split; try lia.
Qed.

Ltac nobody :=
  try (intros ? []);
  try match goal with
      | H : In _ [] |- _ => destruct H
      | H : False |- _ => destruct H
      end.

Lemma session_invariant_start : session_invariant initial_session.
Proof.
  unfold session_invariant. simpl.
  repeat split; nobody; reflexivity.
Qed.

Lemma session_invariant_step (s s' : Session) :
  session_invariant s -> session_step s s' -> session_invariant s'.
Proof.
  intros (Hreads & Hgens & Hstate) Hstep.
  destruct Hstep as [s event Hup | s st Hup | s Hreset
                    | s before p after rr Hrs
                    | s before g after br gc Hgs];
    unfold session_invariant, quiet in *; cbn [ctl reads generations].
  - (* select *)
    apply upload_offered_idle in Hup. rewrite Hup in Hstate.
    destruct Hstate as [[Hr Hg] Hres]. rewrite Hr, Hg in *.
    unfold handleFileUpload.
    destruct (files event) as [[|file fs]|]; cbn [fst snd started app];
      [ rewrite Hup; auto | | rewrite Hup; auto ].
    destruct (negb (Js.startsWith (file_type file) "image/"));
      cbn [fst snd started app].
    { simpl. rewrite Hup. auto. }
    destruct (readAsDataURL_throws event); cbn [fst snd started app]; simpl.
    + rewrite Hres. split; [nobody | split; [nobody|]].
      repeat split. exists READ_ERROR_MESSAGE.
      split; [discriminate | reflexivity].
    + rewrite Hres. split; [|split; [nobody|]].
      * intros p0 [<- | []]. reflexivity.
      * repeat split. lia.
  - (* strength *)
    apply upload_offered_idle in Hup. rewrite Hup in Hstate.
    destruct Hstate as [[Hr Hg] Hres]. rewrite Hr, Hg in *.
    simpl. rewrite Hup. split; [nobody | split; [nobody|]]. auto.
  - (* reset *)
    assert (Hq : reads s = [] /\ generations s = []).
    { destruct (appState (ctl s)) eqn:Hs; try apply Hstate.
      destruct Hstate as (_ & He & _).
      pose proof (reset_offered_not_processing _ Hreset He). congruence. }
    destruct Hq as [Hr Hg]. rewrite Hr, Hg. simpl.
    split; [nobody | split; [nobody|]]. auto.
  - (* loadend *)
    destruct (appState (ctl s)) eqn:Hs;
      try (destruct Hstate as [[Hr _] _]; rewrite Hr in Hrs;
           now destruct before).
    destruct Hstate as (Hlen & He & Hgen). rewrite Hrs in Hlen.
    apply single_element in Hlen. destruct Hlen as (-> & -> & Hg).
    apply length_zero_iff_nil in Hg. rewrite Hg. cbn [app].
    destruct rr as [base64String|]; cbn [onloadend fst snd started app].
    + simpl. rewrite Hs. split; [nobody | split].
      * intros g [<- | []]. simpl. split; [|reflexivity].
        apply Hreads. rewrite Hrs. now left.
      * repeat split; [simpl; lia | assumption].
    + rewrite Hs. split; [nobody | split; [nobody|]].
      repeat split; [simpl; lia | assumption | assumption].
  - (* settle *)
    destruct (appState (ctl s)) eqn:Hs;
      try (destruct Hstate as [[_ Hg] _]; rewrite Hg in Hgs;
           now destruct before).
    destruct Hstate as (Hlen & He & Hgen). rewrite Hgs in Hlen.
    assert (Hlen' : (length (before ++ g :: after) + length (reads s) <= 1)%nat)
      by lia.
    clear Hlen. rename Hlen' into Hlen.
    apply single_element in Hlen. destruct Hlen as (-> & -> & Hr).
    apply length_zero_iff_nil in Hr. rewrite Hr. cbn [app].
    destruct (Hgens g) as [Hst Horig]; [rewrite Hgs; now left|].
    unfold settle_in.
    destruct (generateRickAndMortyStyle br gc (inputImage g) (strength g))
      as [url|e] eqn:Hout; simpl.
    + apply generate_fulfilled in Hout.
      destruct Hout as (req & response & d & _ & _ & [Hd _] & ->).
      split; [nobody | split; [nobody|]].
      repeat split; [assumption|].
      exists (inputImage g), d. split; [exact Hd | reflexivity].
    + split; [nobody | split; [nobody|]].
      repeat split; [assumption|].
      exists (classify (error_message e)).
      split; [apply classify_nonempty | reflexivity].
Qed.

Lemma session_reachable_invariant (s : Session) :
  session_reachable s -> session_invariant s.
Proof.
  induction 1 as [|s s' _ IH Hstep];
    [apply session_invariant_start | exact (session_invariant_step s s' IH Hstep)].
Qed.

Lemma reading_session_reachable : session_reachable reading_session.
Proof.
  apply (session_next initial_session); [apply session_start|].
  exact (session_select initial_session select_photo eq_refl).
Qed.

Lemma generating_session_reachable : session_reachable generating_session.
Proof.
  apply (session_next reading_session); [apply reading_session_reachable|].
  exact (session_loadend reading_session [] photo_read []
           (Some "data:image/png;base64,iVBORw0KGgo=") eq_refl).
Qed.

Lemma complete_session_reachable : session_reachable complete_session.
Proof.
  apply (session_next generating_session);
    [apply generating_session_reachable|].
  exact (session_settle generating_session [] photo_generation []
           (sample_browser true (onload 640 480))
           (fun _ => Js.Fulfilled image_response) eq_refl).
Qed.

(** X13. At most one pipeline runs at a time: in every session driven
    through the page, the reads and generations still in flight number at
    most one in all, and there is one only while the state is
    [PROCESSING]. *)
Theorem one_pipeline_at_a_time (s : Session) :
  session_reachable s ->
  (length (reads s) + length (generations s) <= 1)%nat /\
  (reads s <> [] \/ generations s <> [] -> appState (ctl s) = PROCESSING).
Proof.
  intros Hs. apply session_reachable_invariant in Hs.
  destruct Hs as (_ & _ & Hstate). unfold quiet in Hstate.
  destruct (appState (ctl s));
    try (destruct Hstate as [[-> ->] _]; simpl; split;
         [lia | intros [H | H]; now elim H]).
  split; [apply Hstate | reflexivity].
Qed.

Lemma one_pipeline_at_a_time_witness :
  (length (reads generating_session)
   + length (generations generating_session) <= 1)%nat /\
  appState (ctl generating_session) = PROCESSING.
Proof.
  destruct (one_pipeline_at_a_time generating_session
              generating_session_reachable) as [Hlen Hproc].
  split; [exact Hlen | apply Hproc; right; discriminate].
Defined.

(** X14. The controls never race with the pipeline: whenever the page offers
    the upload or a reset, nothing is in flight.  So no result can arrive
    after a reset, and no second upload can start beside a running one. *)
Theorem controls_only_when_quiet (s : Session) :
  session_reachable s ->
  upload_offered (ctl s) = true \/ reset_offered (ctl s) = true ->
  quiet s.
Proof.
  intros Hs Hoffered. apply session_reachable_invariant in Hs.
  destruct Hs as (_ & _ & Hstate).
  destruct (appState (ctl s)) eqn:Happ; try apply Hstate.
  destruct Hstate as (_ & He & _).
  destruct Hoffered as [Hup | Hreset].
  - apply upload_offered_idle in Hup. congruence.
  - pose proof (reset_offered_not_processing _ Hreset He). congruence.
Qed.

Lemma controls_only_when_quiet_witness : quiet complete_session.
Proof.
  apply (controls_only_when_quiet complete_session
           complete_session_reachable).
  right. reflexivity.
Defined.

(** X15. The result record follows the state: a generated image is stored
    exactly in [COMPLETE], always beside its original; in [IDLE] the record
    is empty; and an error message is set in [ERROR] always, in [COMPLETE]
    and [PROCESSING] never. *)
Theorem result_follows_state (s : Session) :
  session_reachable s ->
  (appState (ctl s) = COMPLETE <-> generated (result (ctl s)) <> None) /\
  (generated (result (ctl s)) <> None ->
   original (result (ctl s)) <> None) /\
  (appState (ctl s) = IDLE ->
   result (ctl s) = {| original := None; generated := None |}) /\
  (appState (ctl s) = ERROR -> error (ctl s) <> None) /\
  (error (ctl s) <> None ->
   appState (ctl s) = IDLE \/ appState (ctl s) = ERROR).
Proof.
  intros Hs. apply session_reachable_invariant in Hs.
  destruct Hs as (_ & _ & Hstate).
  destruct (appState (ctl s)) eqn:Happ.
  - destruct Hstate as [_ ->]. simpl.
    repeat split; try congruence; auto.
  - destruct Hstate as (_ & -> & ->).
    repeat split; try congruence; auto.
  - destruct Hstate as (_ & -> & img & d & _ & ->). simpl.
    repeat split; try congruence; auto.
  - destruct Hstate as (_ & -> & m & _ & ->).
    repeat split; try congruence; auto.
Qed.

Lemma result_follows_state_witness :
  generated (result (ctl complete_session)) <> None /\
  original (result (ctl complete_session)) <> None.
Proof.
  destruct (result_follows_state complete_session complete_session_reachable)
    as (Hgen & Horig & _).
  assert (H : generated (result (ctl complete_session)) <> None).
  { apply Hgen. reflexivity. }
  split; [exact H | exact (Horig H)].
Defined.

(** X16. The page is never blank and the end states are never dead ends:
    in every reachable session something is rendered in the main area; in
    [ERROR] and in [COMPLETE] a reset is offered; and in [COMPLETE] the
    download hands out the generated PNG data URL under the name
    "rick-and-morty-style.png". *)
Theorem no_dead_end (s : Session) :
  session_reachable s ->
  main_rendered (ctl s) = true /\
  (appState (ctl s) = ERROR -> reset_offered (ctl s) = true) /\
  (appState (ctl s) = COMPLETE ->
   reset_offered (ctl s) = true /\
   exists d,
     handleDownload (ctl s)
     = Some ("data:image/png;base64," ++ d, "rick-and-morty-style.png")).
Proof.
  intros Hs. apply session_reachable_invariant in Hs.
  destruct Hs as (_ & _ & Hstate).
  unfold main_rendered, reset_offered, result_shown, error_shown,
    handleDownload, is_state.
  destruct (appState (ctl s)) eqn:Happ.
  - split; [now rewrite !orb_true_r | split; discriminate].
  - split; [now rewrite !orb_true_r | split; discriminate].
  - destruct Hstate as (_ & -> & img & d & Hd & ->). simpl.
    split; [reflexivity | split; [discriminate|]].
    intros _. split; [reflexivity | now exists d].
  - destruct Hstate as (_ & _ & m & Hm & ->).
    apply truthy_string_nonempty in Hm. rewrite Hm. simpl.
    split; [reflexivity | split; [reflexivity | discriminate]].
Qed.

Lemma no_dead_end_witness :
  reset_offered (ctl complete_session) = true /\
  exists d,
    handleDownload (ctl complete_session)
    = Some ("data:image/png;base64," ++ d, "rick-and-morty-style.png").
Proof.
  destruct (no_dead_end complete_session complete_session_reachable)
    as (_ & _ & Hcomplete).
  apply Hcomplete. reflexivity.
Defined.

(** X17. A failed read hangs the page.  When a read in flight ends with
    [reader.result] null, the state stays [PROCESSING], nothing is left in
    flight, neither the upload nor a reset is offered, and no further event
    of the session is possible. *)
Theorem failed_read_hangs (s : Session) (before after : list PendingRead)
  (p : PendingRead) :
  session_reachable s ->
  reads s = (before ++ p :: after)%list ->
  let s' :=
    {| ctl := fst (onloadend p None (ctl s));
       reads := (before ++ after)%list;
       generations :=
         (generations s ++ started (snd (onloadend p None (ctl s))))%list |}
  in
  session_step s s' /\
  appState (ctl s') = PROCESSING /\
  quiet s' /\
  upload_offered (ctl s') = false /\
  reset_offered (ctl s') = false /\
  forall s'', ~ session_step s' s''.
Proof.
  intros Hs Hrs s'.
  assert (Hstep : session_step s s') by exact (session_loadend s _ _ _ None Hrs).
  pose proof (session_reachable_invariant _ Hs) as (_ & _ & Hstate).
  unfold quiet in *.
  destruct (appState (ctl s)) eqn:Happ;
    try (destruct Hstate as [[Hr _] _]; rewrite Hr in Hrs;
         now destruct before).
  destruct Hstate as (Hlen & He & _). rewrite Hrs in Hlen.
  apply single_element in Hlen. destruct Hlen as (Hb & Ha & Hg).
  apply length_zero_iff_nil in Hg.
  assert (Hup : upload_offered (ctl s) = false).
  { unfold upload_offered, is_state. now rewrite Happ. }
  assert (Hreset : reset_offered (ctl s) = false).
  { unfold reset_offered, error_shown, result_shown, is_state.
    now rewrite He, Happ. }
  split; [exact Hstep|].
  subst s' before after. cbn [onloadend fst snd started app ctl].
  rewrite Hg. cbn [app].
  split; [exact Happ | split; [split; reflexivity|]].
  split; [exact Hup | split; [exact Hreset|]].
  intros s'' Hnext. inversion Hnext; cbn [ctl reads generations] in *;
    try congruence;
    match goal with
    | H : [] = (?l ++ _ :: _)%list |- _ => now destruct l
    end.
Qed.

Lemma failed_read_hangs_witness :
  let stuck :=
    {| ctl := fst (handleFileUpload select_photo initial);
       reads := []; generations := [] |} in
  session_step reading_session stuck /\
  appState (ctl stuck) = PROCESSING /\
  forall s'', ~ session_step stuck s''.
Proof.
  intros stuck.
  destruct (failed_read_hangs reading_session [] [] photo_read
              reading_session_reachable eq_refl)
    as (Hstep & Hproc & _ & _ & _ & Hstuck).
  split; [exact Hstep | split; [exact Hproc | exact Hstuck]].
Defined.

(** X18. What is in flight is what the page shows: every read and every
    generation in flight uses the style strength currently selected, and
    the image of a generation in flight is the one stored as original. *)
Theorem in_flight_matches_page (s : Session) :
  session_reachable s ->
  (forall p, In p (reads s) -> read_strength p = styleStrength (ctl s)) /\
  (forall g, In g (generations s) ->
     strength g = styleStrength (ctl s) /\
     original (result (ctl s)) = Some (inputImage g)).
Proof.
  intros Hs. apply session_reachable_invariant in Hs.
  destruct Hs as (Hreads & Hgens & _). split; assumption.
Qed.

Lemma in_flight_matches_page_witness :
  strength photo_generation = styleStrength (ctl generating_session) /\
  original (result (ctl generating_session))
  = Some (inputImage photo_generation).
Proof.
  destruct (in_flight_matches_page generating_session
              generating_session_reachable) as [_ Hgens].
  apply Hgens. now left.
Defined.



Lemma callback_step_is_session_step (s s' : Session) :
  callback_step s s' -> session_step s s'.
Proof.
  intros [s0 before p after rr H | s0 before g after br gc H];
    [now apply session_loadend | now apply session_settle].
Qed.


